(** * Batch ingestion and three-way reconciliation of yearly setlists

    A shallow embedding of the two load-bearing algorithms of the
    repository's scripts:

    - [scripts/ingest_yearly_setlists.py]: [chunk_list], [post_batch],
      [post_batch_adaptive], [get_distinct_external_ids], [reconcile_years];
    - [scripts/reconcile_setlists.py]: [fetch_all_rows],
      [bronze_ids_by_year], [silver_ids_by_year], [reconcile_years];
    - [scripts/compare_csv_vs_bronze.py]: [fetch_bronze_external_ids],
      [load_csv_ids].

    Python integers are [Z]; Python lists are [list]; Python sets of strings
    are [gset string]; a Python [str] is a [string] read as a sequence of
    characters with code points below 256, compared character by character.
    Loops that the source writes as [while] carry a fuel argument and return
    [None] when it runs out. *)

From Stdlib Require Import ZArith Lia.
From Stdlib Require OrderedTypeEx.
From stdpp Require Import base tactics option list numbers strings pretty gmap sets sorting.

Local Open Scope Z_scope.

(** ** Python list slices *)

Module Py.

(** [clamp_index n k] is the position the slice bound [k] denotes in a
    sequence of length [n]: a negative bound counts from the end, and the
    result is clamped to [0..n]. *)
Definition clamp_index (n k : Z) : Z :=
  if k <? 0 then Z.max 0 (k + n) else Z.min k n.

(** [slice l i j] is the Python expression [l[i:j]]. *)
Definition slice {A} (l : list A) (i j : Z) : list A :=
  let n := Z.of_nat (length l) in
  let a := clamp_index n i in
  let b := clamp_index n j in
  take (Z.to_nat (b - a)) (drop (Z.to_nat a) l).

(** [range a b] is [range(a, b)]. *)
Definition range (a b : Z) : list Z :=
  (λ i : nat, a + Z.of_nat i) <$> seq 0 (Z.to_nat (b - a)).

Lemma slice_in_range {A} (l : list A) (i j : Z) :
  0 <= i -> i <= j -> j <= Z.of_nat (length l) ->
  slice l i j = take (Z.to_nat (j - i)) (drop (Z.to_nat i) l).
Proof.
  intros Hi Hij Hj. unfold slice, clamp_index.
  destruct (Z.ltb_spec i 0); [lia|].
  destruct (Z.ltb_spec j 0); [lia|].
  rewrite !Z.min_l by lia. reflexivity.
Qed.

Lemma slice_nonneg {A} (l : list A) (i j : Z) :
  0 <= i -> i <= j ->
  slice l i j = take (Z.to_nat (j - i)) (drop (Z.to_nat i) l).
Proof.
  intros Hi Hij. unfold slice, clamp_index.
  destruct (Z.ltb_spec i 0); [lia|].
  destruct (Z.ltb_spec j 0); [lia|].
  destruct (Z.le_gt_cases (Z.of_nat (length l)) i).
  - rewrite !Z.min_r by lia. rewrite Nat2Z.id, drop_all, (drop_ge l (Z.to_nat i)) by lia.
    by rewrite !take_nil.
  - rewrite (Z.min_l i) by lia.
    destruct (Z.le_gt_cases j (Z.of_nat (length l))).
    + by rewrite Z.min_l by lia.
    + rewrite Z.min_r by lia. rewrite !take_ge; [done|..]; rewrite length_drop; lia.
Qed.

(** *** Exceptions and results *)

(** The exceptions the scripts can raise.  [Unauthorized] and [ServerError]
    are the two [RuntimeError]s of [post_batch]; [HTTPError] is what
    [raise_for_status] raises for a 4xx or 5xx status; [RequestException]
    is a failure of the HTTP call itself (connection, timeout);
    [JSONDecodeError] is a body that is not JSON; [FailedAfterRetries] is
    the [RuntimeError] after the retry loop of [post_batch]. *)
#[local] Unset Elimination Schemes.
Inductive exn :=
  | TypeError
  | ValueError
  | AttributeError
  | Unauthorized
  | ServerError (status : Z)
  | HTTPError (status : Z)
  | RequestException (what : string)
  | JSONDecodeError
  | FailedAfterRetries (last_error : option exn).
#[local] Set Elimination Schemes.

Inductive outcome (A : Type) :=
  | Return (a : A)
  | Raise (e : exn).
Arguments Return {A} a.
Arguments Raise {A} e.

Global Instance outcome_ret : MRet outcome := λ A a, Return a.
Global Instance outcome_bind : MBind outcome := λ A B f m,
  match m with
  | Return a => f a
  | Raise e => Raise e
  end.

(** *** JSON values as Python objects *)

(** What [json.load] and [resp.json()] produce, numbers being integers:
    [None], [bool], [int], [str], [list] and [dict] with string keys. *)
#[local] Unset Elimination Schemes.
Inductive json :=
  | JNull
  | JBool (b : bool)
  | JInt (n : Z)
  | JStr (s : string)
  | JList (l : list json)
  | JDict (d : gmap string json).
#[local] Set Elimination Schemes.

(** [bool(v)], also the test of [if v], [not v] and [v or w]. *)
Definition truthy (v : json) : bool :=
  match v with
  | JNull => false
  | JBool b => b
  | JInt n => negb (n =? 0)
  | JStr s => negb (String.eqb s "")
  | JList l => match l with [] => false | _ => true end
  | JDict d => negb (bool_decide (d = ∅))
  end.

(** [v or w]. *)
Definition py_or (v w : json) : json := if truthy v then v else w.

(** [d.get(key, default)] on a dict. *)
Definition dict_get (d : gmap string json) (key : string) (dflt : json) : json :=
  default dflt (d !! key).

(** [v.get(key, default)] on any value: only a dict has the method. *)
Definition py_get (v : json) (key : string) (dflt : json) : outcome json :=
  match v with
  | JDict d => Return (dict_get d key dflt)
  | _ => Raise AttributeError
  end.

(** *** [int(...)] *)

Abbreviation ascii := Stdlib.Strings.Ascii.ascii.

(** The code point of a character. *)
Definition code (c : ascii) : Z := Z.of_N (Stdlib.Strings.Ascii.N_of_ascii c).

(** The characters [int] and [str.strip] treat as white space, among the
    code points below 256. *)
Definition is_space (c : ascii) : bool :=
  let n := code c in
  ((9 <=? n) && (n <=? 13)) || ((28 <=? n) && (n <=? 32))
  || (n =? 133) || (n =? 160).

Definition digit_value (c : ascii) : option Z :=
  let n := code c in
  if (48 <=? n) && (n <=? 57) then Some (n - 48) else None.

Fixpoint drop_spaces (l : list ascii) : list ascii :=
  match l with
  | c :: l' => if is_space c then drop_spaces l' else l
  | [] => []
  end.

Definition strip (l : list ascii) : list ascii :=
  reverse (drop_spaces (reverse (drop_spaces l))).

(** Decimal digits, single underscores allowed between two digits.
    [after_digit] tells whether the previous character was a digit. *)
Fixpoint parse_digits (l : list ascii) (acc : Z) (after_digit : bool) : option Z :=
  match l with
  | [] => if after_digit then Some acc else None
  | c :: l' =>
      match digit_value c with
      | Some d => parse_digits l' (10 * acc + d) true
      | None =>
          if (code c =? 95) && after_digit then parse_digits l' acc false
          else None
      end
  end.

(** [int(s)] for a string [s]: [None] stands for [ValueError].  White space
    around the literal is dropped, one sign is allowed.  (The cap on the
    number of digits of recent interpreters is left out.) *)
Definition int_of_string (s : string) : option Z :=
  match strip (String.list_ascii_of_string s) with
  | c :: l =>
      if code c =? 43 then parse_digits l 0 false
      else if code c =? 45 then Z.opp <$> parse_digits l 0 false
      else parse_digits (c :: l) 0 false
  | [] => None
  end.

(** [int(v)] for a JSON value. *)
Definition py_int (v : json) : outcome Z :=
  match v with
  | JInt n => Return n
  | JBool b => Return (if b then 1 else 0)
  | JStr s => match int_of_string s with Some n => Return n | None => Raise ValueError end
  | JNull | JList _ | JDict _ => Raise TypeError
  end.

(** [v + w]. *)
Definition py_add (v w : json) : outcome json :=
  match v, w with
  | JList a, JList b => Return (JList (a ++ b))
  | JStr a, JStr b => Return (JStr (a +:+ b))
  | JInt a, JInt b => Return (JInt (a + b))
  | JInt a, JBool b => Return (JInt (a + (if b then 1 else 0)))
  | JBool a, JInt b => Return (JInt ((if a then 1 else 0) + b))
  | JBool a, JBool b => Return (JInt ((if a then 1 else 0) + (if b then 1 else 0)))
  | _, _ => Raise TypeError
  end.

(** [str(v)].  The text Python prints for a list or a dict is not spelled
    out: [container_repr] stands for it. *)
Definition py_str (container_repr : json → string) (v : json) : string :=
  match v with
  | JNull => "None"
  | JBool b => if b then "True" else "False"
  | JInt n => pretty n
  | JStr s => s
  | JList _ | JDict _ => container_repr v
  end.

Example int_of_string_plain : int_of_string "12345" = Some 12345.
Proof. reflexivity. Qed.
Example int_of_string_padded : int_of_string " -1_000 " = Some (-1000).
Proof. reflexivity. Qed.
Example int_of_string_star : int_of_string "*" = None.
Proof. reflexivity. Qed.
Example int_of_string_empty : int_of_string "" = None.
Proof. reflexivity. Qed.
Example int_of_string_underscores : int_of_string "1__0" = None ∧ int_of_string "10_" = None.
Proof. split; reflexivity. Qed.

End Py.

(** ** [chunk_list]: partition of the records into batches *)

Module Chunk.

Section chunk_list.
Context {A : Type}.

(** The [while start_index < total] loop of [chunk_list]; one unit of fuel
    per evaluation of the loop condition. *)
Fixpoint chunk_loop (fuel : nat) (items : list A) (chunk_size : Z)
    (start_index : Z) (chunks : list (list A)) : option (list (list A)) :=
  match fuel with
  | O => None
  | S fuel' =>
      let total := Z.of_nat (length items) in
      if start_index <? total then
        let end_index := Z.min (start_index + chunk_size) total in
        chunk_loop fuel' items chunk_size end_index
                   (chunks ++ [Py.slice items start_index end_index])
      else Some chunks
  end.

(** [chunk_list(items, chunk_size)].  For [chunk_size >= 1] the loop runs
    at most [len(items)] times, so [len(items) + 1] units of fuel are
    enough ([chunk_loop_enough]); for [chunk_size <= 0] and a non-empty
    list the source loops forever and no fuel is enough
    ([chunk_loop_diverges]). *)
Definition chunk_list (items : list A) (chunk_size : Z) : option (list (list A)) :=
  chunk_loop (S (length items)) items chunk_size 0 [].

(** [ceil_div n b] is the ceiling of [n / b] for [b >= 1]. *)
Definition ceil_div (n b : Z) : Z := (n + b - 1) / b.

(** What the claim asks of the batches cut from position [s] on. *)
Record partition_from (items : list A) (b s : Z) (cs : list (list A)) : Prop := {
  pf_concat : concat cs = drop (Z.to_nat s) items;
  pf_sizes : Forall (λ c, 1 <= Z.of_nat (length c) <= b) cs;
  pf_full : ∀ (i : nat) c, cs !! i = Some c → (S i < length cs)%nat →
            Z.of_nat (length c) = b;
  pf_count : Z.of_nat (length cs) = ceil_div (Z.of_nat (length items) - s) b;
  pf_window : ∀ (i : nat) c, cs !! i = Some c →
            c = Py.slice items (s + Z.of_nat i * b)
                  (Z.min (s + (Z.of_nat i + 1) * b) (Z.of_nat (length items)))
}.

Lemma ceil_div_spec (n b k : Z) :
  1 <= b -> (ceil_div n b = k <-> (k - 1) * b < n <= k * b).
Proof.
  intros Hb. unfold ceil_div. split.
  - intros <-. pose proof (Z.div_mod (n + b - 1) b ltac:(lia)).
    pose proof (Z.mod_pos_bound (n + b - 1) b ltac:(lia)). nia.
  - intros [H1 H2]. symmetry. apply (Z.div_unique _ _ _ (n + b - 1 - b * k)); lia.
Qed.

Lemma ceil_div_zero (b : Z) : 1 <= b -> ceil_div 0 b = 0.
Proof. intros. apply ceil_div_spec; lia. Qed.

Lemma ceil_div_step (n b : Z) : 1 <= b -> ceil_div (n + b) b = 1 + ceil_div n b.
Proof.
  intros Hb. apply ceil_div_spec; [done|].
  pose proof (proj1 (ceil_div_spec n b _ Hb) eq_refl). lia.
Qed.

Lemma ceil_div_small (n b : Z) : 1 <= n <= b -> ceil_div n b = 1.
Proof. intros. apply ceil_div_spec; lia. Qed.

(** Invariant of the loop: from a position [s] inside the list the loop
    appends to [chunks] exactly the batches cut from [s] on. *)
Lemma chunk_loop_enough (items : list A) (b : Z) :
  1 <= b ->
  ∀ (fuel : nat) (s : Z) (chunks : list (list A)),
    0 <= s <= Z.of_nat (length items) ->
    (Z.to_nat (Z.of_nat (length items) - s) < fuel)%nat ->
    ∃ cs, chunk_loop fuel items b s chunks = Some (chunks ++ cs)
          ∧ partition_from items b s cs.
Proof.
  intros Hb. induction fuel as [|fuel IH]; intros s chunks Hs Hfuel; [lia|].
  cbn [chunk_loop]. destruct (Z.ltb_spec s (Z.of_nat (length items))) as [Hlt|Hge].
  - set (e := Z.min (s + b) (Z.of_nat (length items))).
    assert (He : s < e <= Z.of_nat (length items)) by (unfold e; lia).
    destruct (IH e (chunks ++ [Py.slice items s e]) ltac:(lia) ltac:(lia))
      as (cs & Hrun & Hcs).
    exists (Py.slice items s e :: cs). split.
    { rewrite Hrun, <- app_assoc. reflexivity. }
    assert (Hslice : Py.slice items s e
                     = take (Z.to_nat (e - s)) (drop (Z.to_nat s) items)).
    { apply Py.slice_in_range; lia. }
    assert (Hlen : Z.of_nat (length (Py.slice items s e)) = e - s).
    { rewrite Hslice, length_take, length_drop. lia. }
    destruct Hcs as [Hc Hsz Hfull Hcount Hwin]. split.
    + cbn [concat]. rewrite Hc, Hslice.
      replace (Z.to_nat e) with (Z.to_nat s + Z.to_nat (e - s))%nat by lia.
      rewrite <- drop_drop. apply take_drop.
    + constructor; [|done]. rewrite Hlen. unfold e. lia.
    + intros [|i] c Hi Hi'; cbn in Hi.
      * injection Hi as <-. rewrite Hlen. cbn [length] in Hi'.
        destruct (Z.eq_dec e (Z.of_nat (length items))) as [Heq|Hne].
        { rewrite Heq, Z.sub_diag, ceil_div_zero in Hcount by done. lia. }
        unfold e in *. lia.
      * apply (Hfull i); [done|]. cbn [length] in Hi'. lia.
    + cbn [length]. rewrite Nat2Z.inj_succ, Hcount.
      destruct (Z.eq_dec e (Z.of_nat (length items))) as [Heq|Hne].
      * rewrite Heq, Z.sub_diag, ceil_div_zero by done.
        rewrite ceil_div_small; [done|]. unfold e in *. lia.
      * assert (e = s + b) as -> by (unfold e in *; lia).
        replace (Z.of_nat (length items) - s)
          with (Z.of_nat (length items) - (s + b) + b) by lia.
        rewrite ceil_div_step by done. lia.
    + intros [|i] c Hi; cbn in Hi.
      * injection Hi as <-. cbn. rewrite Z.add_0_r. f_equal. unfold e. lia.
      * destruct (Z.eq_dec e (Z.of_nat (length items))) as [Heq|Hne].
        { rewrite Heq, Z.sub_diag, ceil_div_zero in Hcount by done.
          destruct cs; [done|cbn in Hcount; lia]. }
        assert (e = s + b) as Hsb by (unfold e in *; lia).
        rewrite (Hwin i c Hi), Hsb. f_equal; [lia|f_equal; lia].
  - exists []. split; [by rewrite app_nil_r|].
    assert (s = Z.of_nat (length items)) as -> by lia.
    split.
    + rewrite Nat2Z.id, drop_all. done.
    + constructor.
    + intros i c Hi. done.
    + rewrite Z.sub_diag, ceil_div_zero by done. done.
    + intros i c Hi. done.
Qed.

(** With a batch size below one and at least one record the source never
    leaves the loop: [start_index] does not advance. *)
Lemma chunk_loop_diverges (items : list A) (b : Z) :
  b <= 0 ->
  ∀ (fuel : nat) (s : Z) (chunks : list (list A)),
    s < Z.of_nat (length items) ->
    chunk_loop fuel items b s chunks = None.
Proof.
  intros Hb. induction fuel as [|fuel IH]; intros s chunks Hs; [done|].
  cbn [chunk_loop]. destruct (Z.ltb_spec s (Z.of_nat (length items))); [|lia].
  apply IH. lia.
Qed.

(** C4. For every list of records and every batch size [b >= 1],
    [chunk_list] returns batches whose concatenation is the original list
    (nothing dropped, duplicated or reordered), each holding between one
    and [b] records, every batch but the last holding exactly [b], the
    [i]-th batch being the contiguous slice [items[i*b : min((i+1)*b, N)]],
    and their number being [ceil(N / b)]. *)
Theorem chunk_list_partition (items : list A) (b : Z) :
  1 <= b ->
  ∃ chunks,
    chunk_list items b = Some chunks
    ∧ concat chunks = items
    ∧ Forall (λ c, 1 <= Z.of_nat (length c) <= b) chunks
    ∧ (∀ (i : nat) c, chunks !! i = Some c → (S i < length chunks)%nat →
         Z.of_nat (length c) = b)
    ∧ Z.of_nat (length chunks) = ceil_div (Z.of_nat (length items)) b
    ∧ (∀ (i : nat) c, chunks !! i = Some c →
         c = Py.slice items (Z.of_nat i * b)
               (Z.min ((Z.of_nat i + 1) * b) (Z.of_nat (length items)))).
Proof.
  intros Hb. unfold chunk_list.
  destruct (chunk_loop_enough items b Hb (S (length items)) 0 [])
    as (cs & Hrun & [Hc Hsz Hfull Hcount Hwin]); [lia|lia|].
  exists cs. rewrite Hrun. cbn in Hc. rewrite Z.sub_0_r in Hcount.
  split_and!; try done.
Qed.

End chunk_list.

(** A run of [chunk_list] on five records with batches of two. *)
Example chunk_list_five :
  chunk_list [1; 2; 3; 4; 5] 2 = Some [[1; 2]; [3; 4]; [5]].
Proof. reflexivity. Qed.

(** The statement of C4 at that input. *)
Lemma chunk_list_partition_witness :
  1 <= 2 ∧
  ∃ chunks,
    chunk_list [1; 2; 3; 4; 5] 2 = Some chunks
    ∧ concat chunks = [1; 2; 3; 4; 5]
    ∧ Forall (λ c, 1 <= Z.of_nat (length c) <= 2) chunks
    ∧ (∀ (i : nat) c, chunks !! i = Some c → (S i < length chunks)%nat →
         Z.of_nat (length c) = 2)
    ∧ Z.of_nat (length chunks) = ceil_div 5 2
    ∧ (∀ (i : nat) c, chunks !! i = Some c →
         c = Py.slice [1; 2; 3; 4; 5] (Z.of_nat i * 2)
               (Z.min ((Z.of_nat i + 1) * 2) 5)).
Proof. split; [lia | apply (chunk_list_partition [1; 2; 3; 4; 5] 2); lia]. Defined.

End Chunk.

(** ** [post_batch] and [post_batch_adaptive]: submission with retries and
    bisection *)

Module Ingest.
Import Py.

Definition MAX_RETRIES : Z := 2.
Definition MIN_BATCH_SIZE : Z := 50.
Definition RETRY_SLEEP_SECONDS : Z := 2.

(** What [requests.post] gives back: no response at all (the call raises),
    or a response with its status code and its body, [None] when the body
    is not JSON. *)
Inductive reply :=
  | NoResponse (what : string)
  | Response (status_code : Z) (body : option json).

(** What one attempt of [post_batch] makes of the reply (the body of the
    [try] block). *)
Definition classify (r : reply) : outcome json :=
  match r with
  | NoResponse what => Raise (RequestException what)
  | Response status_code body =>
      if status_code =? 401 then Raise Unauthorized
      else if status_code >=? 500 then Raise (ServerError status_code)
      else if (400 <=? status_code) && (status_code <? 600)
           then Raise (HTTPError status_code)
      else match body with
           | Some v => Return v
           | None => Raise JSONDecodeError
           end
  end.

(** The aggregation of the two halves' responses at the end of
    [post_batch_adaptive], in the order Python evaluates the dict display. *)
Definition aggregate (res_left res_right : json) : outcome json :=
  sl ← py_get res_left "success" (JBool false);
  success ← (if truthy sl
             then sr ← py_get res_right "success" (JBool false); mret (truthy sr)
             else mret false);
  nl ← py_get res_left "total_new_records" (JInt 0) ≫= py_int;
  nr ← py_get res_right "total_new_records" (JInt 0) ≫= py_int;
  ul ← py_get res_left "total_updated_records" (JInt 0) ≫= py_int;
  ur ← py_get res_right "total_updated_records" (JInt 0) ≫= py_int;
  rl ← py_get res_left "results" JNull;
  rr ← py_get res_right "results" JNull;
  results ← py_add (py_or rl (JList [])) (py_or rr (JList []));
  mret (JDict (<["success" := JBool success]>
              (<["total_new_records" := JInt (nl + nr)]>
              (<["total_updated_records" := JInt (ul + ur)]>
              (<["results" := results]> ∅))))).

(** How the scripts read a response ([ingest_years] and the aggregation
    read the same four keys the same way). *)
Record IngestOutcome := {
  accepted : bool;
  newCount : Z;
  updatedCount : Z;
  perBatchResults : json
}.

Definition read_outcome (v : json) : outcome IngestOutcome :=
  s ← py_get v "success" (JBool false);
  n ← py_get v "total_new_records" (JInt 0) ≫= py_int;
  u ← py_get v "total_updated_records" (JInt 0) ≫= py_int;
  r ← py_get v "results" JNull;
  mret {| accepted := truthy s; newCount := n; updatedCount := u;
          perBatchResults := py_or r (JList []) |}.

(** The response of a bisected batch. *)
Definition combined_response (success : bool) (new updated : Z) (results : json) : json :=
  JDict (<["success" := JBool success]>
        (<["total_new_records" := JInt new]>
        (<["total_updated_records" := JInt updated]>
        (<["results" := results]> ∅)))).

(** A response with the value the aggregation assumes for each key that is
    missing (and for a null ["results"]). *)
Definition default_to (key : string) (v : json) (d : gmap string json) : gmap string json :=
  match d !! key with
  | None => <[key := v]> d
  | Some _ => d
  end.

Definition default_results (d : gmap string json) : gmap string json :=
  match d !! "results" with
  | None | Some JNull => <["results" := JList []]> d
  | Some _ => d
  end.

Definition with_defaults (d : gmap string json) : gmap string json :=
  default_results
    (default_to "total_updated_records" (JInt 0)
      (default_to "total_new_records" (JInt 0)
        (default_to "success" (JBool false) d))).

Lemma aggregate_returns (res_left res_right agg : json) :
  aggregate res_left res_right = Return agg →
  ∃ ol or res,
    read_outcome res_left = Return ol ∧ read_outcome res_right = Return or
    ∧ py_add (perBatchResults ol) (perBatchResults or) = Return res
    ∧ agg = combined_response (accepted ol && accepted or)
              (newCount ol + newCount or) (updatedCount ol + updatedCount or) res.
Proof.
  unfold aggregate, read_outcome, combined_response. intros H.
  destruct res_left as [| | | | |dl]; try done.
  destruct res_right as [| | | | |dr].
  1-5: exfalso; cbn in H; destruct (truthy _); cbn in H; try done;
       destruct (py_int _); cbn in H; done.
  cbn [py_get] in *. unfold mbind, outcome_bind, mret, outcome_ret in *.
  destruct (py_int (dict_get dl "total_new_records" _)) as [nl|] eqn:Hnl.
  2:{ destruct (truthy _); done. }
  destruct (py_int (dict_get dr "total_new_records" _)) as [nr|] eqn:Hnr.
  2:{ destruct (truthy _); done. }
  destruct (py_int (dict_get dl "total_updated_records" _)) as [ul|] eqn:Hul.
  2:{ destruct (truthy _); done. }
  destruct (py_int (dict_get dr "total_updated_records" _)) as [ur|] eqn:Hur.
  2:{ destruct (truthy _); done. }
  destruct (py_add _ _) as [res|] eqn:Hres.
  2:{ destruct (truthy _); done. }
  eexists _, _, res. split; [done|]. split; [done|]. cbn. split; [done|].
  destruct (truthy (dict_get dl "success" _)); cbn; by injection H as <-.
Qed.

Lemma read_combined_response (success : bool) (new updated : Z) (results : json) :
  read_outcome (combined_response success new updated results)
  = Return {| accepted := success; newCount := new; updatedCount := updated;
              perBatchResults := py_or results (JList []) |}.
Proof.
  destruct success; reflexivity.
Qed.






Lemma read_outcome_dict (d : gmap string json) (o : IngestOutcome) :
  read_outcome (JDict d) = Return o →
  accepted o = truthy (dict_get d "success" (JBool false))
  ∧ py_int (dict_get d "total_new_records" (JInt 0)) = Return (newCount o)
  ∧ py_int (dict_get d "total_updated_records" (JInt 0)) = Return (updatedCount o)
  ∧ perBatchResults o = py_or (dict_get d "results" JNull) (JList []).
Proof.
  unfold read_outcome. cbn [py_get]. unfold mbind, outcome_bind, mret, outcome_ret.
  destruct (py_int (dict_get d "total_new_records" _)) as [n|]; [|done].
  destruct (py_int (dict_get d "total_updated_records" _)) as [u|]; [|done].
  by intros [= <-].
Qed.




Example with_defaults_empty :
  JDict (with_defaults ∅) = combined_response false 0 0 (JList []).
Proof. reflexivity. Qed.

Example aggregate_partial_responses :
  aggregate (JDict {["total_new_records" := JInt 3]})
            (JDict {["success" := JBool true]})
  = Return (combined_response false 3 0 (JList [])).
Proof. reflexivity. Qed.


Section submission.
(** The records are opaque; the ingestion endpoint is an external system
    with a state of its own, which every submission may change. *)
Context {R Remote : Type}.
Variable endpoint : Remote → list R → reply * Remote.

(** What a run does to the outside, in order.  [EvCall depth size] marks
    the entry into [post_batch_adaptive] at recursion depth [depth] with a
    batch of [size] records; [EvSplit] is the message printed before a
    bisection. *)
Inductive event :=
  | EvCall (depth size : nat)
  | EvPost (batch : list R)
  | EvSleep (seconds : Z)
  | EvSplit (size size_left size_right : nat).

Record world := World { remote : Remote; trace : list event }.

(** Computations over the world that may raise; [None] is a run that
    needs more nesting of calls than the fuel at hand allows. *)
Definition M (A : Type) : Type := world → option (outcome A * world).

Definition ret {A} (a : A) : M A := λ w, Some (Return a, w).
Definition raise {A} (e : exn) : M A := λ w, Some (Raise e, w).
Definition out_of_fuel {A} : M A := λ _, None.
Definition bind {A B} (m : M A) (k : A → M B) : M B := λ w,
  match m w with
  | Some (Return a, w') => k a w'
  | Some (Raise e, w') => Some (Raise e, w')
  | None => None
  end.
(** [try: m except Exception as exc: handler exc]. *)
Definition try_except {A} (m : M A) (handler : exn → M A) : M A := λ w,
  match m w with
  | Some (Return a, w') => Some (Return a, w')
  | Some (Raise e, w') => handler e w'
  | None => None
  end.
Definition lift {A} (o : outcome A) : M A := λ w, Some (o, w).
Definition record (ev : event) (w : world) : world :=
  World (remote w) (trace w ++ [ev]).
Definition log (ev : event) : M unit := λ w, Some (Return (), record ev w).

(** [requests.post(url, ..., json=body)] followed by the checks of the
    [try] block. *)
Definition attempt (batch : list R) : M json := λ w,
  let '(r, s') := endpoint (remote w) batch in
  Some (classify r, World s' (trace w ++ [EvPost batch])).

(** The [for attempt in range(1, MAX_RETRIES + 1)] loop of [post_batch],
    and the [raise] after it. *)
Fixpoint post_batch_loop (attempts : list Z) (last_error : option exn)
    (batch : list R) : M json :=
  match attempts with
  | [] => raise (FailedAfterRetries last_error)
  | attempt_no :: rest =>
      try_except (attempt batch) (λ exc,
        if attempt_no <? MAX_RETRIES
        then bind (log (EvSleep RETRY_SLEEP_SECONDS))
                  (λ _, post_batch_loop rest (Some exc) batch)
        else raise exc)
  end.

Definition post_batch (batch : list R) : M json :=
  post_batch_loop (Py.range 1 (MAX_RETRIES + 1)) None batch.

(** The body of [post_batch_adaptive], the recursive calls being [self]. *)
Definition post_batch_adaptive_body (self : list R → M json)
    (depth : nat) (batch : list R) : M json :=
  bind (log (EvCall depth (length batch))) (λ _,
  try_except (post_batch batch) (λ exc,
    if Z.of_nat (length batch) <=? MIN_BATCH_SIZE then raise exc
    else
      let mid := (length batch / 2)%nat in
      let left := take mid batch in
      let right := drop mid batch in
      bind (log (EvSplit (length batch) (length left) (length right))) (λ _,
      bind (self left) (λ res_left,
      bind (self right) (λ res_right,
      lift (aggregate res_left res_right)))))).

(** The recursion of [post_batch_adaptive], on a bound [fuel] on the
    nesting of calls; [depth] is the nesting of the present call. *)
Fixpoint pba (fuel : nat) (depth : nat) (batch : list R) : M json :=
  match fuel with
  | O => out_of_fuel
  | S fuel' => post_batch_adaptive_body (pba fuel' (S depth)) depth batch
  end.

(** [post_batch_adaptive(batch)] called at nesting [depth].  A batch of
    [n] records never nests more than [n] calls ([pba_total]). *)
Definition post_batch_adaptive_at (depth : nat) (batch : list R) : M json :=
  pba (S (length batch)) depth batch.

Definition post_batch_adaptive (batch : list R) : M json :=
  post_batch_adaptive_at 0 batch.

(** *** What [post_batch] does *)

(** The two attempts of [post_batch], written out: a first post; when it
    raises, a sleep and a second post, whose outcome is final. *)
Lemma post_batch_run (batch : list R) (w : world) :
  post_batch batch w =
    let '(r1, s1) := endpoint (remote w) batch in
    match classify r1 with
    | Return v => Some (Return v, World s1 (trace w ++ [EvPost batch]))
    | Raise _ =>
        let '(r2, s2) := endpoint s1 batch in
        Some (classify r2,
              World s2 (trace w ++ [EvPost batch; EvSleep RETRY_SLEEP_SECONDS;
                                    EvPost batch]))
    end.
Proof.
  unfold post_batch. change (Py.range 1 (MAX_RETRIES + 1)) with [1; 2].
  cbn [post_batch_loop]. unfold try_except at 1, attempt at 1.
  destruct (endpoint (remote w) batch) as [r1 s1].
  destruct (classify r1) as [v|e1]; [done|].
  change (1 <? MAX_RETRIES) with true. cbv iota.
  unfold bind, log, record, try_except, attempt. cbn [remote trace].
  destruct (endpoint s1 batch) as [r2 s2].
  change (2 <? MAX_RETRIES) with false. cbv iota. unfold raise.
  rewrite <- !app_assoc. cbn [app].
  destruct (classify r2); reflexivity.
Qed.

(** [post_batch] always comes back, and only posts and sleeps. *)
Definition post_or_sleep (batch : list R) (ev : event) : Prop :=
  ev = EvPost batch ∨ ev = EvSleep RETRY_SLEEP_SECONDS.

Lemma post_batch_total (batch : list R) (w : world) :
  ∃ o w' evs, post_batch batch w = Some (o, w')
              ∧ trace w' = trace w ++ evs
              ∧ Forall (post_or_sleep batch) evs.
Proof.
  rewrite post_batch_run. destruct (endpoint (remote w) batch) as [r1 s1].
  destruct (classify r1) as [v|e1].
  - eexists _, _, [EvPost batch]. split; [done|]. split; [done|].
    constructor; [by left|constructor].
  - destruct (endpoint s1 batch) as [r2 s2].
    eexists _, _, [EvPost batch; EvSleep RETRY_SLEEP_SECONDS; EvPost batch].
    split; [done|]. split; [done|].
    constructor; [by left|]. constructor; [by right|].
    constructor; [by left|constructor].
Qed.

(** *** What [post_batch_adaptive] does *)

(** The body, written out. *)
Lemma post_batch_adaptive_body_run (self : list R → M json) (depth : nat)
    (batch : list R) (w : world) :
  post_batch_adaptive_body self depth batch w =
    match post_batch batch (record (EvCall depth (length batch)) w) with
    | Some (Return v, w1) => Some (Return v, w1)
    | Some (Raise exc, w1) =>
        if Z.of_nat (length batch) <=? MIN_BATCH_SIZE then Some (Raise exc, w1)
        else
          let mid := (length batch / 2)%nat in
          bind (self (take mid batch)) (λ res_left,
          bind (self (drop mid batch)) (λ res_right,
          lift (aggregate res_left res_right)))
            (record (EvSplit (length batch) (length (take mid batch))
                             (length (drop mid batch))) w1)
    | None => None
    end.
Proof.
  unfold post_batch_adaptive_body, bind at 1, log, try_except.
  destruct (post_batch _ _) as [[[v|exc] w1]|]; [done| |done].
  destruct (_ <=? _); [done|]. reflexivity.
Qed.

(** One unfolding of the recursion. *)
Lemma pba_step (fuel depth : nat) (batch : list R) (w : world) :
  pba (S fuel) depth batch w =
  post_batch_adaptive_body (pba fuel (S depth)) depth batch w.
Proof. reflexivity. Qed.

(** The two halves of a batch that is split. *)
Lemma halves (batch : list R) :
  MIN_BATCH_SIZE < Z.of_nat (length batch) →
  take (length batch / 2) batch ++ drop (length batch / 2) batch = batch
  ∧ length (take (length batch / 2) batch) = (length batch / 2)%nat
  ∧ length (drop (length batch / 2) batch) = (length batch - length batch / 2)%nat
  ∧ (0 < length (take (length batch / 2) batch) < length batch)%nat
  ∧ (0 < length (drop (length batch / 2) batch) < length batch)%nat.
Proof.
  unfold MIN_BATCH_SIZE. intros Hlen. set (mid := (length batch / 2)%nat).
  assert (Hmid : (0 < mid < length batch)%nat).
  { unfold mid. split.
    - apply Nat.div_str_pos. lia.
    - apply Nat.div_lt; lia. }
  clearbody mid. rewrite take_drop, length_take, length_drop.
  split_and!; [done|lia..].
Qed.

(** More fuel than the batch has records is always enough, and then the
    amount does not matter. *)
Lemma pba_fuel_irrelevant (fuel1 fuel2 depth : nat) (batch : list R) (w : world) :
  (length batch < fuel1)%nat → (length batch < fuel2)%nat →
  pba fuel1 depth batch w = pba fuel2 depth batch w.
Proof.
  revert fuel2 depth batch w.
  induction fuel1 as [|fuel1 IH]; intros [|fuel2] depth batch w H1 H2; try lia.
  rewrite !pba_step, !post_batch_adaptive_body_run.
  destruct (post_batch _ _) as [[[v|exc] w1]|]; [done| |done].
  destruct (Z.leb_spec (Z.of_nat (length batch)) MIN_BATCH_SIZE) as [|Hbig]; [done|].
  destruct (halves batch Hbig) as (_ & _ & _ & Hl & Hr).
  cbv zeta. unfold bind at 1 3.
  rewrite (IH fuel2) by lia.
  destruct (pba fuel2 _ _ _) as [[[res_left|e] w3]|]; [|done|done].
  unfold bind. rewrite (IH fuel2) by lia. reflexivity.
Qed.

Lemma pba_total (fuel depth : nat) (batch : list R) (w : world) :
  (length batch < fuel)%nat → ∃ o w', pba fuel depth batch w = Some (o, w').
Proof.
  revert depth batch w.
  induction fuel as [|fuel IH]; intros depth batch w Hfuel; [lia|].
  rewrite pba_step, post_batch_adaptive_body_run.
  destruct (post_batch_total batch (record (EvCall depth (length batch)) w))
    as (o & w1 & evs & -> & _ & _).
  destruct o as [v|exc]; [by eauto|].
  destruct (Z.leb_spec (Z.of_nat (length batch)) MIN_BATCH_SIZE) as [|Hbig]; [by eauto|].
  destruct (halves batch Hbig) as (_ & _ & _ & Hl & Hr).
  cbv zeta. unfold bind at 1.
  edestruct (IH (S depth) (take (length batch / 2) batch)) as (ol & w3 & ->); [lia|].
  destruct ol as [res_left|e]; [|by eauto].
  unfold bind.
  edestruct (IH (S depth) (drop (length batch / 2) batch)) as (or & w4 & ->); [lia|].
  destruct or as [res_right|e]; [|by eauto].
  unfold lift. eauto.
Qed.

(** The model satisfies the recursive equation of the source: the call at
    nesting [depth] is the body, its recursive calls being the model at
    nesting [depth + 1]. *)
Lemma post_batch_adaptive_unfold (depth : nat) (batch : list R) (w : world) :
  post_batch_adaptive_at depth batch w =
  post_batch_adaptive_body (post_batch_adaptive_at (S depth)) depth batch w.
Proof.
  unfold post_batch_adaptive_at at 1.
  rewrite pba_step, !post_batch_adaptive_body_run.
  destruct (post_batch _ _) as [[[v|exc] w1]|]; [done| |done].
  destruct (Z.leb_spec (Z.of_nat (length batch)) MIN_BATCH_SIZE) as [|Hbig]; [done|].
  destruct (halves batch Hbig) as (_ & _ & _ & Hl & Hr).
  cbv zeta. unfold bind at 1 3. unfold post_batch_adaptive_at.
  rewrite (pba_fuel_irrelevant (length batch) (S (length (take (length batch / 2) batch))))
    by lia.
  destruct (pba _ _ (take _ _) _) as [[[res_left|e] w3]|]; [|done|done].
  unfold bind.
  rewrite (pba_fuel_irrelevant (length batch) (S (length (drop (length batch / 2) batch))))
    by lia.
  reflexivity.
Qed.

(** *** The calls of one run *)

(** What holds of every event of a call at nesting [depth] on [size]
    records: a call nested [k] levels deeper has at most [size] records and,
    for [k >= 1], [MIN_BATCH_SIZE * 2^(k-1) < size]; a split is of a batch
    above [MIN_BATCH_SIZE] into two non-empty, strictly smaller halves at
    its midpoint. *)
Definition within (depth size : nat) (ev : event) : Prop :=
  match ev with
  | EvCall d n =>
      ∃ k : nat, d = (depth + k)%nat ∧ (n ≤ size)%nat
        ∧ (k = 0%nat ∨ MIN_BATCH_SIZE * 2 ^ (Z.of_nat k - 1) < Z.of_nat size)
  | EvSplit n l r =>
      MIN_BATCH_SIZE < Z.of_nat n ∧ (n ≤ size)%nat ∧ l = (n / 2)%nat
      ∧ (l + r = n)%nat ∧ (0 < l < n)%nat ∧ (0 < r < n)%nat
  | EvPost b => (length b ≤ size)%nat
  | EvSleep seconds => seconds = RETRY_SLEEP_SECONDS
  end.

Lemma within_child (depth size m : nat) (ev : event) :
  MIN_BATCH_SIZE < Z.of_nat size → (2 * m ≤ size + 1)%nat →
  within (S depth) m ev → within depth size ev.
Proof.
  intros Hsize Hm. destruct ev as [d n|b|seconds|n l r]; cbn [within].
  - intros (k & -> & Hn & Hk). exists (S k). split; [lia|]. split; [lia|]. right.
    replace (Z.of_nat (S k) - 1) with (Z.of_nat k) by lia.
    destruct k as [|k]; [change (2 ^ Z.of_nat 0) with 1; lia|].
    destruct Hk as [|Hk]; [done|].
    replace (Z.of_nat (S k)) with (Z.succ (Z.of_nat (S k) - 1)) by lia.
    rewrite Z.pow_succ_r by lia. unfold MIN_BATCH_SIZE in *. lia.
  - lia.
  - done.
  - intros (? & ? & ? & ? & ? & ?). split_and!; try done; lia.
Qed.

Lemma pba_trace (fuel depth : nat) (batch : list R) (w : world) o w' :
  pba fuel depth batch w = Some (o, w') →
  ∃ evs, trace w' = trace w ++ evs ∧ Forall (within depth (length batch)) evs.
Proof.
  revert depth batch w o w'.
  induction fuel as [|fuel IH]; intros depth batch w o w'; [done|].
  rewrite pba_step, post_batch_adaptive_body_run.
  destruct (post_batch_total batch (record (EvCall depth (length batch)) w))
    as (o1 & w1 & evs1 & -> & Htr1 & Hev1).
  cbn [record trace] in Htr1.
  assert (Hcall : within depth (length batch) (EvCall depth (length batch))).
  { exists 0%nat. split; [lia|]. split; [lia|]. by left. }
  assert (Hposts : Forall (within depth (length batch)) evs1).
  { eapply Forall_impl; [exact Hev1|]. intros ev [->| ->]; cbn; [lia|done]. }
  assert (Hfirst : ∀ w2 : world, trace w2 = trace w1 →
            ∃ evs, trace w2 = trace w ++ evs ∧ Forall (within depth (length batch)) evs).
  { intros w2 ->. exists (EvCall depth (length batch) :: evs1).
    rewrite Htr1, <- app_assoc. split; [done|]. by constructor. }
  destruct o1 as [v|exc].
  { intros [= <- <-]. by apply Hfirst. }
  destruct (Z.leb_spec (Z.of_nat (length batch)) MIN_BATCH_SIZE) as [|Hbig].
  { intros [= <- <-]. by apply Hfirst. }
  destruct (halves batch Hbig) as (_ & Hll & Hlr & Hl & Hr).
  cbv zeta. set (left := take (length batch / 2) batch) in *.
  set (right := drop (length batch / 2) batch) in *.
  assert (Hsplit : within depth (length batch)
                     (EvSplit (length batch) (length left) (length right))).
  { cbn [within]. split_and!; try done; lia. }
  assert (Hleft : ∀ ev, within (S depth) (length left) ev → within depth (length batch) ev).
  { intros ev. apply within_child; [done|]. rewrite Hll.
    pose proof (Nat.Div0.mul_div_le (length batch) 2). lia. }
  assert (Hright : ∀ ev, within (S depth) (length right) ev → within depth (length batch) ev).
  { intros ev. apply within_child; [done|]. rewrite Hlr.
    pose proof (Nat.div_mod_eq (length batch) 2).
    pose proof (Nat.mod_upper_bound (length batch) 2). lia. }
  unfold bind at 1.
  destruct (pba fuel (S depth) left _) as [[ol w3]|] eqn:HL; [|done].
  apply IH in HL as (evsL & HtrL & HevL). cbn [record trace] in HtrL.
  assert (Hsecond : ∀ w4 : world, trace w4 = trace w3 →
            ∃ evs, trace w4 = trace w ++ evs ∧ Forall (within depth (length batch)) evs).
  { intros w4 ->.
    exists (EvCall depth (length batch) :: evs1
            ++ EvSplit (length batch) (length left) (length right) :: evsL).
    rewrite HtrL, Htr1, <- !app_assoc. split; [done|].
    constructor; [done|]. apply Forall_app. split; [done|].
    constructor; [done|]. eapply Forall_impl; [exact HevL|done]. }
  destruct ol as [res_left|e].
  2:{ intros [= <- <-]. by apply Hsecond. }
  unfold bind.
  destruct (pba fuel (S depth) right w3) as [[or w4]|] eqn:HR; [|done].
  apply IH in HR as (evsR & HtrR & HevR).
  destruct (Hsecond w3 eq_refl) as (evs3 & Htr3 & Hev3).
  assert (Hthird : ∀ w5 : world, trace w5 = trace w4 →
            ∃ evs, trace w5 = trace w ++ evs ∧ Forall (within depth (length batch)) evs).
  { intros w5 ->. exists (evs3 ++ evsR). rewrite HtrR, Htr3, <- app_assoc.
    split; [done|]. apply Forall_app. split; [done|].
    eapply Forall_impl; [exact HevR|done]. }
  destruct or as [res_right|e]; unfold lift; intros [= <- <-]; by apply Hthird.
Qed.

(** What a call does once [post_batch] has given up on its batch: it
    re-raises for a batch of at most [MIN_BATCH_SIZE] records, and otherwise
    prints the split, submits the left half, then the right half, and
    aggregates; an exception of either half ends the call. *)
Lemma post_batch_adaptive_after_failure (depth : nat) (batch : list R)
    (w : world) (exc : exn) (w1 : world) :
  post_batch batch (record (EvCall depth (length batch)) w) = Some (Raise exc, w1) →
  post_batch_adaptive_at depth batch w =
    if Z.of_nat (length batch) <=? MIN_BATCH_SIZE then Some (Raise exc, w1)
    else
      bind (post_batch_adaptive_at (S depth) (take (length batch / 2) batch)) (λ res_left,
      bind (post_batch_adaptive_at (S depth) (drop (length batch / 2) batch)) (λ res_right,
      lift (aggregate res_left res_right)))
        (record (EvSplit (length batch) (length (take (length batch / 2) batch))
                         (length (drop (length batch / 2) batch))) w1).
Proof.
  intros Hfail.
  rewrite post_batch_adaptive_unfold, post_batch_adaptive_body_run, Hfail.
  reflexivity.
Qed.

(** C6. When [post_batch] still fails after its retries on a batch of at
    most [MIN_BATCH_SIZE] records, [post_batch_adaptive] raises that same
    exception to its caller and does nothing more: the world is the one
    [post_batch] left, whose events after the entry into the call are posts
    of the whole batch and sleeps only (no split, no post of a part). *)
Theorem small_batch_failure_propagates (depth : nat) (batch : list R)
    (w : world) (exc : exn) (w1 : world) :
  Z.of_nat (length batch) <= MIN_BATCH_SIZE →
  post_batch batch (record (EvCall depth (length batch)) w) = Some (Raise exc, w1) →
  post_batch_adaptive_at depth batch w = Some (Raise exc, w1)
  ∧ ∃ evs, trace w1 = trace w ++ EvCall depth (length batch) :: evs
           ∧ Forall (post_or_sleep batch) evs.
Proof.
  intros Hsmall Hfail. split.
  - rewrite (post_batch_adaptive_after_failure _ _ _ _ _ Hfail).
    by destruct (Z.leb_spec (Z.of_nat (length batch)) MIN_BATCH_SIZE); [|lia].
  - destruct (post_batch_total batch (record (EvCall depth (length batch)) w))
      as (o & w' & evs & Hrun & Htr & Hev).
    rewrite Hfail in Hrun. injection Hrun as <- <-.
    exists evs. split; [|done]. rewrite Htr. cbn. by rewrite <- app_assoc.
Qed.

(** How the outcome of a bisected batch relates to those of its halves, as
    the scripts read outcomes. *)
Definition combines (res_left res_right agg : json) : Prop :=
  ∃ ol or oa,
    read_outcome res_left = Return ol
    ∧ read_outcome res_right = Return or
    ∧ read_outcome agg = Return oa
    ∧ accepted oa = accepted ol && accepted or
    ∧ newCount oa = newCount ol + newCount or
    ∧ updatedCount oa = updatedCount ol + updatedCount or
    ∧ (∀ results_left results_right,
         perBatchResults ol = JList results_left →
         perBatchResults or = JList results_right →
         perBatchResults oa = JList (results_left ++ results_right)).

Lemma aggregate_combines (res_left res_right agg : json) :
  aggregate res_left res_right = Return agg → combines res_left res_right agg.
Proof.
  intros Hagg. apply aggregate_returns in Hagg as (ol & or & res & Hol & Hor & Hres & ->).
  exists ol, or. eexists. split; [done|]. split; [done|].
  split; [apply read_combined_response|]. cbn.
  split_and!; try done.
  intros a b Ha Hb. rewrite Ha, Hb in Hres. cbn in Hres. injection Hres as <-.
  unfold py_or. cbn. by destruct (a ++ b).
Qed.

(** C5. When [post_batch] fails after its retries on a batch of more than
    [MIN_BATCH_SIZE] records, [post_batch_adaptive] cuts the batch at its
    midpoint [len // 2] into a left and a right half whose concatenation is
    the batch, calls itself on the left half and then on the right half, and
    returns the aggregation of the two responses: ["success"] is the
    conjunction, the two counts are the sums, and the results are the left
    results followed by the right results.  (As everywhere in Python, an
    exception raised by a half ends the call with that exception.) *)
Theorem bisection_splits_and_combines (depth : nat) (batch : list R)
    (w : world) (exc : exn) (w1 : world) :
  MIN_BATCH_SIZE < Z.of_nat (length batch) →
  post_batch batch (record (EvCall depth (length batch)) w) = Some (Raise exc, w1) →
  let mid := (length batch / 2)%nat in
  let left := take mid batch in
  let right := drop mid batch in
  left ++ right = batch
  ∧ length left = mid
  ∧ length right = (length batch - mid)%nat
  ∧ post_batch_adaptive_at depth batch w =
      bind (post_batch_adaptive_at (S depth) left) (λ res_left,
      bind (post_batch_adaptive_at (S depth) right) (λ res_right,
      lift (aggregate res_left res_right)))
        (record (EvSplit (length batch) (length left) (length right)) w1)
  ∧ (∀ w2 res_left w3 res_right w4,
       w2 = record (EvSplit (length batch) (length left) (length right)) w1 →
       post_batch_adaptive_at (S depth) left w2 = Some (Return res_left, w3) →
       post_batch_adaptive_at (S depth) right w3 = Some (Return res_right, w4) →
       post_batch_adaptive_at depth batch w = Some (aggregate res_left res_right, w4)
       ∧ ∀ agg, aggregate res_left res_right = Return agg →
                combines res_left res_right agg).
Proof.
  intros Hbig Hfail mid left right.
  destruct (halves batch Hbig) as (Happ & Hll & Hlr & _ & _).
  assert (Hrun := post_batch_adaptive_after_failure _ _ _ _ _ Hfail).
  destruct (Z.leb_spec (Z.of_nat (length batch)) MIN_BATCH_SIZE); [lia|].
  split_and!; try done.
  intros w2 res_left w3 res_right w4 -> HL HR. split.
  - rewrite Hrun. unfold bind at 1. fold mid left right. rewrite HL.
    unfold bind. by rewrite HR.
  - apply aggregate_combines.
Qed.

(** C8 (as the code has it). Every run of [post_batch_adaptive] terminates
    (with a response or an exception).  Each split is of a batch above [MIN_BATCH_SIZE] into two
    non-empty halves, each strictly smaller than the batch, so no call on a
    batch of at most [MIN_BATCH_SIZE] records recurses; and a call at
    recursion depth [d >= 1] only occurs when
    [MIN_BATCH_SIZE * 2^(d-1) < len(batch)], that is, the depth is at most
    the ceiling of [log2(len(batch) / MIN_BATCH_SIZE)]. *)
Theorem adaptive_submission_terminates (batch : list R) (w : world) :
  ∃ o w' evs,
    post_batch_adaptive batch w = Some (o, w')
    ∧ trace w' = trace w ++ evs
    ∧ (∀ d n, EvCall d n ∈ evs →
         d = 0%nat ∨ MIN_BATCH_SIZE * 2 ^ (Z.of_nat d - 1) < Z.of_nat (length batch))
    ∧ (∀ n l r, EvSplit n l r ∈ evs →
         MIN_BATCH_SIZE < Z.of_nat n ∧ l = (n / 2)%nat ∧ (l + r = n)%nat
         ∧ (0 < l < n)%nat ∧ (0 < r < n)%nat).
Proof.
  unfold post_batch_adaptive, post_batch_adaptive_at.
  destruct (pba_total (S (length batch)) 0 batch w) as (o & w' & Hrun); [lia|].
  destruct (pba_trace _ _ _ _ _ _ Hrun) as (evs & Htr & Hev).
  exists o, w', evs. split; [done|]. split; [done|].
  rewrite Forall_forall in Hev. split.
  - intros d n Hin. destruct (Hev _ Hin) as (k & Hd & _ & Hk).
    cbn in Hd. subst k. exact Hk.
  - intros n l r Hin. destruct (Hev _ Hin) as (? & ? & ? & ? & ? & ?). done.
Qed.

(** C1 (as the code has it). A 401 response makes the attempt raise the
    auth error, and that error is handled like any other failure: after a
    401 on the first attempt [post_batch] sleeps [RETRY_SLEEP_SECONDS] and
    posts the batch again, and the second reply decides the outcome; a 401
    on that last attempt leaves [post_batch] as the auth error with no
    further sleep or post; [post_batch_adaptive] then re-raises it only for
    a batch of at most [MIN_BATCH_SIZE] records and bisects a larger one. *)
Theorem unauthorized_is_handled_like_any_failure (batch : list R) (w : world)
    (body1 : option json) (s1 : Remote) :
  endpoint (remote w) batch = (Response 401 body1, s1) →
  attempt batch w = Some (Raise Unauthorized, World s1 (trace w ++ [EvPost batch]))
  ∧ post_batch batch w =
      (let '(r2, s2) := endpoint s1 batch in
       Some (classify r2,
             World s2 (trace w ++ [EvPost batch; EvSleep RETRY_SLEEP_SECONDS;
                                   EvPost batch])))
  ∧ (∀ body2 s2, endpoint s1 batch = (Response 401 body2, s2) →
       let w2 := World s2 (trace w ++ [EvPost batch; EvSleep RETRY_SLEEP_SECONDS;
                                       EvPost batch]) in
       post_batch batch w = Some (Raise Unauthorized, w2)
       ∧ ∀ depth w0, w = record (EvCall depth (length batch)) w0 →
           post_batch_adaptive_at depth batch w0 =
             if Z.of_nat (length batch) <=? MIN_BATCH_SIZE
             then Some (Raise Unauthorized, w2)
             else
               bind (post_batch_adaptive_at (S depth) (take (length batch / 2) batch))
                 (λ res_left,
                  bind (post_batch_adaptive_at (S depth) (drop (length batch / 2) batch))
                    (λ res_right, lift (aggregate res_left res_right)))
                 (record (EvSplit (length batch)
                            (length (take (length batch / 2) batch))
                            (length (drop (length batch / 2) batch))) w2)).
Proof.
  intros H1.
  assert (Hpost : post_batch batch w =
      (let '(r2, s2) := endpoint s1 batch in
       Some (classify r2,
             World s2 (trace w ++ [EvPost batch; EvSleep RETRY_SLEEP_SECONDS;
                                   EvPost batch])))).
  { rewrite post_batch_run, H1. reflexivity. }
  split_and!.
  - unfold attempt. rewrite H1. reflexivity.
  - exact Hpost.
  - intros body2 s2 H2 w2.
    assert (Hfail : post_batch batch w = Some (Raise Unauthorized, w2)).
    { rewrite Hpost, H2. reflexivity. }
    split; [exact Hfail|].
    intros depth w0 ->. by apply post_batch_adaptive_after_failure.
Qed.

End submission.

(** *** Runs against concrete endpoints *)

(** An endpoint that gives the same reply to every submission and counts
    the submissions it has seen. *)
Definition always (r : reply) : nat → list nat → reply * nat :=
  λ seen _, (r, S seen).

(** An endpoint that times out on more than [limit] records and accepts a
    smaller batch, reporting every record as new. *)
Definition size_limited (limit : nat) : nat → list nat → reply * nat :=
  λ seen batch,
    if (length batch <=? limit)%nat
    then (Response 200
            (Some (combined_response true (Z.of_nat (length batch)) 0
                     (JList [JInt (Z.of_nat (length batch))]))),
          S seen)
    else (NoResponse "timeout", S seen).

Definition start : world (Remote := nat) (R := nat) := World 0%nat [].

(** C1, counterexample: against an endpoint that answers 401, [post_batch]
    sleeps and posts a second time after the first 401, and
    [post_batch_adaptive] bisects a batch of 51 records and submits its left
    half, twice, before the auth error reaches the caller. *)
Lemma unauthorized_is_retried_and_bisected :
  post_batch (always (Response 401 None)) [7%nat] start
  = Some (Raise Unauthorized,
          World 2%nat [EvPost [7%nat]; EvSleep 2; EvPost [7%nat]])
  ∧ post_batch_adaptive (always (Response 401 None)) (seq 0 51) start
    = Some (Raise Unauthorized,
            World 4%nat [EvCall 0 51; EvPost (seq 0 51); EvSleep 2; EvPost (seq 0 51);
                         EvSplit 51 25 26;
                         EvCall 1 25; EvPost (seq 0 25); EvSleep 2; EvPost (seq 0 25)]).
Proof. split; vm_compute; reflexivity. Qed.

Lemma unauthorized_is_handled_like_any_failure_witness :
  post_batch (always (Response 401 None)) [7%nat] start
  = Some (Raise Unauthorized,
          World 2%nat [EvPost [7%nat]; EvSleep RETRY_SLEEP_SECONDS; EvPost [7%nat]]).
Proof.
  refine (proj1 (proj2 (proj2
    (unauthorized_is_handled_like_any_failure (always (Response 401 None))
       [7%nat] start None 1%nat _)) None 2%nat _)); reflexivity.
Defined.

(** C6 at a batch of three records that the endpoint keeps refusing. *)
Lemma small_batch_failure_propagates_witness :
  post_batch_adaptive (always (Response 503 None)) [1; 2; 3]%nat start
  = Some (Raise (ServerError 503),
          World 2%nat [EvCall 0 3; EvPost [1; 2; 3]%nat; EvSleep 2;
                       EvPost [1; 2; 3]%nat]).
Proof.
  refine (proj1 (small_batch_failure_propagates (always (Response 503 None)) 0
    [1; 2; 3]%nat start (ServerError 503) _ _ _)); vm_compute; done.
Defined.

(** C5 at a batch of 102 records against an endpoint that times out above
    60 records: the batch is cut into 51 + 51, both halves are accepted and
    the counts add up. *)
Lemma bisection_splits_and_combines_witness :
  take 51 (seq 0 102) ++ drop 51 (seq 0 102) = seq 0 102
  ∧ ∃ w4, post_batch_adaptive (size_limited 60) (seq 0 102) start
          = Some (Return (combined_response true 102 0 (JList [JInt 51; JInt 51])), w4).
Proof.
  pose proof (bisection_splits_and_combines (size_limited 60) 0 (seq 0 102) start
    (RequestException "timeout")
    (World 2%nat [EvCall 0 102; EvPost (seq 0 102); EvSleep 2; EvPost (seq 0 102)])
    ltac:(vm_compute; reflexivity) ltac:(vm_compute; reflexivity)) as H.
  cbv zeta in H. destruct H as (Happ & _ & _ & _ & Hcomb).
  split; [exact Happ|].
  eexists. unfold post_batch_adaptive.
  etransitivity;
    [refine (proj1 (Hcomb _ _ _ _ _ eq_refl _ _)); lazy; reflexivity
    |lazy; reflexivity].
Defined.

(** C8, counterexample to the bound [depth <= log2(len / MIN_BATCH_SIZE)],
    that is [MIN_BATCH_SIZE * 2^depth <= len]: on 51 records that the
    endpoint refuses, a call at depth 1 is made, and [50 * 2^1 > 51]. *)
Lemma depth_exceeds_log2_bound :
  ∃ o w', post_batch_adaptive (always (Response 500 None)) (seq 0 51) start = Some (o, w')
          ∧ EvCall 1 25 ∈ trace w'
          ∧ ¬ (MIN_BATCH_SIZE * 2 ^ 1 <= Z.of_nat (length (seq 0 51))).
Proof.
  eexists _, _. split; [vm_compute; reflexivity|]. split.
  - cbn [trace]. do 5 apply list_elem_of_further. apply list_elem_of_here.
  - vm_compute. intros H. apply H. reflexivity.
Qed.

End Ingest.

(** ** The paged fetch: [fetch_all_rows], [get_distinct_external_ids],
    [fetch_bronze_external_ids] *)

Module Fetch.
Import Py.

Definition PAGE_SIZE : Z := 10000.

(** A row or record: a JSON object. *)
Abbreviation row := (gmap string json).

(** What [requests.get] gives back: no response (the call raises), or a
    response with its status code, its body, a JSON array of rows, and its
    [Content-Range] header if it has one. *)
Inductive reply (A : Type) :=
  | NoResponse (what : string)
  | Response (status_code : Z) (data : list A) (content_range : option string).
Arguments NoResponse {A} what.
Arguments Response {A} status_code data content_range.

(** [resp.raise_for_status()] raises for these status codes. *)
Definition is_error_status (status_code : Z) : bool :=
  (400 <=? status_code) && (status_code <? 600).

(** *** The total of a [Content-Range] header *)

(** ["/" in s]. *)
Fixpoint contains_slash (s : string) : bool :=
  match s with
  | EmptyString => false
  | String c s' => (code c =? 47) || contains_slash s'
  end.

(** [s.split("/")[-1]]: what follows the last slash (all of [s] if it has
    none). *)
Fixpoint last_segment (s : string) : string :=
  match s with
  | EmptyString => EmptyString
  | String c s' =>
      if contains_slash s' then last_segment s'
      else if code c =? 47 then s' else s
  end.

(** The second component of [s.split("/", 1)]: what follows the first
    slash. *)
Fixpoint after_first_slash (s : string) : option string :=
  match s with
  | EmptyString => None
  | String c s' => if code c =? 47 then Some s' else after_first_slash s'
  end.

(** The total as [fetch_all_rows] and [fetch_bronze_external_ids] read it:
    [int(content_range.split("/")[-1])], [None] on [ValueError] or when the
    header has no slash. *)
Definition total_of_last (header : option string) : option Z :=
  let content_range := default "" header in
  if contains_slash content_range then int_of_string (last_segment content_range)
  else None.

(** The total as [get_distinct_external_ids] reads it:
    [_, total_str = content_range.split("/", 1)] and [int(total_str)]. *)
Definition total_of_first (header : option string) : option Z :=
  let content_range := default "" header in
  if contains_slash content_range
  then after_first_slash content_range ≫= int_of_string
  else None.

Example total_of_items : total_of_last (Some "items 0-9999/12345") = Some 12345.
Proof. reflexivity. Qed.
Example total_of_unknown : total_of_last (Some "0-9999/*") = None.
Proof. reflexivity. Qed.
Example total_of_missing : total_of_last None = None ∧ total_of_first None = None.
Proof. split; reflexivity. Qed.
Example total_two_slashes :
  total_of_last (Some "a/5/7") = Some 7 ∧ total_of_first (Some "a/5/7") = None.
Proof. split; reflexivity. Qed.

(** *** Identifiers of a page *)

(** The identifier a row contributes: [eid = row.get(key)], then
    [str(eid)] unless [eid is None] (the key is missing or its value is
    null). *)
Definition identifier (container_repr : json → string) (key : string) (r : row)
    : option string :=
  match dict_get r key JNull with
  | JNull => None
  | eid => Some (py_str container_repr eid)
  end.

(** The loop body [eid = row.get("external_id"); if eid is not None:
    ids.add(str(eid))], for the key [key]. *)
Definition add_id (container_repr : json → string) (key : string)
    (ids : gset string) (r : row) : gset string :=
  match identifier container_repr key r with
  | Some s => {[ s ]} ∪ ids
  | None => ids
  end.

Definition add_ids (container_repr : json → string) (key : string)
    (ids : gset string) (data : list row) : gset string :=
  foldl (add_id container_repr key) ids data.

(** *** The loop *)

Section paged.
Context {A Acc : Type}.
(** The endpoint, as a function of the requested window
    [items=range_from-range_to]: reads are idempotent. *)
Variable server : Z → Z → reply A.
Variable parse_total : option string → option Z.
Variable accumulate : Acc → list A → Acc.
Variable page_size : Z.

(** The window of the [k]-th request. *)
Definition window (k : nat) : Z * Z :=
  (Z.of_nat k * page_size, Z.of_nat k * page_size + page_size - 1).

(** The [while True] loop shared by the three fetch functions; one unit of
    fuel per request.  The result carries the windows requested so far. *)
Fixpoint paged_loop (fuel : nat) (range_from : Z) (acc : Acc)
    (requests : list (Z * Z)) : option (outcome Acc * list (Z * Z)) :=
  match fuel with
  | O => None
  | S fuel' =>
      let range_to := range_from + page_size - 1 in
      let requests' := requests ++ [(range_from, range_to)] in
      match server range_from range_to with
      | NoResponse what => Some (Raise (RequestException what), requests')
      | Response status_code data content_range =>
          if is_error_status status_code
          then Some (Raise (HTTPError status_code), requests')
          else
            let acc' := accumulate acc data in
            let total := parse_total content_range in
            if match data with [] => true | _ => false end
               || match total with
                  | Some t => range_to + 1 >=? t
                  | None => false
                  end
            then Some (Return acc', requests')
            else paged_loop fuel' (range_from + page_size) acc' requests'
      end
  end.

(** The rows of the [k]-th window, when the server answers it. *)
Definition page (k : nat) : list A :=
  match server (fst (window k)) (snd (window k)) with
  | Response _ data _ => data
  | NoResponse _ => []
  end.

(** The server answers window [k] without an error status and without a
    total the fetch can read. *)
Definition answers_without_total (k : nat) : Prop :=
  ∃ status_code data content_range,
    server (fst (window k)) (snd (window k)) = Response status_code data content_range
    ∧ is_error_status status_code = false
    ∧ parse_total content_range = None.

(** The server serves the collection [rows] by windows and reports its size
    as the total. *)
Definition serves (rows : list A) : Prop :=
  ∀ range_from range_to, 0 <= range_from →
    ∃ status_code content_range,
      server range_from range_to
      = Response status_code (Py.slice rows range_from (range_to + 1)) content_range
      ∧ is_error_status status_code = false
      ∧ parse_total content_range = Some (Z.of_nat (length rows)).

(** **** A server that reports no total *)

Lemma window_succ (k : nat) :
  fst (window (S k)) = fst (window k) + page_size.
Proof. unfold window. cbn [fst]. lia. Qed.

(** Without a total the loop goes on until the first empty page [n], which
    it requests too, and stops there. *)
Lemma paged_loop_no_total (n : nat) :
  ∀ (fuel j : nat) (acc : Acc) (requests : list (Z * Z)),
    (j ≤ n)%nat → (n - j < fuel)%nat →
    (∀ k, (j ≤ k ≤ n)%nat → answers_without_total k) →
    (∀ k, (j ≤ k < n)%nat → page k ≠ []) →
    page n = [] →
    paged_loop fuel (fst (window j)) acc requests
    = Some (Return (foldl accumulate acc (page <$> seq j (S n - j))),
            requests ++ (window <$> seq j (S n - j))).
Proof.
  induction fuel as [|fuel IH]; intros j acc requests Hj Hfuel Hans Hfull Hempty; [lia|].
  cbn [paged_loop].
  destruct (Hans j ltac:(lia)) as (st & data & cr & Hsrv & Hok & Htot).
  assert (Hpage : page j = data) by (unfold page; by rewrite Hsrv).
  change (fst (window j) + page_size - 1) with (snd (window j)).
  rewrite Hsrv, Hok, Htot, orb_false_r.
  destruct (decide (j = n)) as [->|Hne].
  - rewrite Hempty in Hpage. subst data.
    replace (S n - n)%nat with 1%nat by lia. cbn. by rewrite Hempty.
  - assert (data ≠ []) as Hdata by (rewrite <- Hpage; apply Hfull; lia).
    destruct data as [|x data]; [done|].
    rewrite <- window_succ, (IH (S j)); [|lia|lia|intros; apply Hans; lia
                                         |intros; apply Hfull; lia|done].
    replace (S n - j)%nat with (S (S n - S j)) by lia.
    cbn [seq fmap list_fmap foldl]. rewrite Hpage, <- app_assoc.
    by destruct (window j).
Qed.

(** Without a total and without an empty page the loop never ends. *)
Lemma paged_loop_never_empty :
  (∀ k, answers_without_total k ∧ page k ≠ []) →
  ∀ (fuel j : nat) (acc : Acc) (requests : list (Z * Z)),
    paged_loop fuel (fst (window j)) acc requests = None.
Proof.
  intros Hsrv. induction fuel as [|fuel IH]; intros j acc requests; [done|].
  cbn [paged_loop].
  destruct (Hsrv j) as [(st & data & cr & Hj & Hok & Htot) Hfull].
  change (fst (window j) + page_size - 1) with (snd (window j)).
  unfold page in Hfull. rewrite Hj in *. rewrite Hok, Htot, orb_false_r.
  destruct data as [|x data]; [done|].
  rewrite <- window_succ. apply IH.
Qed.


(** **** A server that serves a collection and reports its size *)

(** From a position [range_from] that still lies inside the collection (or
    at its start), with the rows before it accumulated, the loop makes
    [c + 1] more requests and ends with the whole collection. *)
Lemma paged_loop_serves (rows : list A) (Hpos : 1 <= page_size) :
  serves rows →
  ∀ (c fuel : nat) (range_from : Z) (requests : list (Z * Z)) (acc0 : Acc) (f : Acc → list A),
    (c < fuel)%nat → 0 <= range_from →
    (range_from + Z.of_nat c * page_size < Z.of_nat (length rows)
       <= range_from + (Z.of_nat c + 1) * page_size
     ∨ (c = 0%nat ∧ Z.of_nat (length rows) <= range_from + page_size)) →
    (∀ acc data, f (accumulate acc data) = f acc ++ data) →
    f acc0 = take (Z.to_nat range_from) rows →
    ∃ acc, paged_loop fuel range_from acc0 requests
           = Some (Return acc,
                   requests ++ ((λ i : nat, (range_from + Z.of_nat i * page_size,
                                             range_from + Z.of_nat i * page_size
                                             + page_size - 1)) <$> seq 0 (S c)))
           ∧ f acc = rows.
Proof.
  intros Hsrv.
  induction c as [|c IH]; intros [|fuel] range_from requests acc0 f Hfuel Hfrom Hc Hf Hacc;
    try lia; cbn [paged_loop];
    destruct (Hsrv range_from (range_from + page_size - 1) Hfrom)
      as (st & cr & -> & -> & ->);
    assert (Hslice : Py.slice rows range_from (range_from + page_size - 1 + 1)
                     = take (Z.to_nat page_size) (drop (Z.to_nat range_from) rows))
      by (rewrite Py.slice_nonneg by lia; f_equal; lia);
    assert (Hnext : f (accumulate acc0
                         (Py.slice rows range_from (range_from + page_size - 1 + 1)))
                    = take (Z.to_nat (range_from + page_size)) rows)
      by (rewrite Hf, Hacc, Hslice, take_take_drop; f_equal; lia).
  - assert (Hstop : Z.of_nat (length rows) <= range_from + page_size) by lia.
    replace (range_from + page_size - 1 + 1 >=? Z.of_nat (length rows)) with true
      by (symmetry; apply Z.geb_le; lia).
    rewrite orb_true_r. eexists. split.
    { cbn. by rewrite Z.add_0_r. }
    rewrite Hnext. apply take_ge. lia.
  - destruct Hc as [Hc|[? _]]; [|lia].
    assert (Hlen : length (Py.slice rows range_from (range_from + page_size - 1 + 1))
                   = Z.to_nat page_size).
    { rewrite Hslice, length_take, length_drop. nia. }
    destruct (Py.slice rows range_from (range_from + page_size - 1 + 1)) as [|x data] eqn:E.
    { cbn in Hlen. lia. }
    replace (range_from + page_size - 1 + 1 >=? Z.of_nat (length rows)) with false
      by (symmetry; rewrite Z.geb_leb; apply Z.leb_gt; nia).
    cbn [orb].
    edestruct (IH fuel (range_from + page_size)
                 (requests ++ [(range_from, range_from + page_size - 1)])
                 (accumulate acc0 (x :: data)) f) as (acc & -> & Hrows);
      [lia|lia|left; lia|done|done|].
    exists acc. split; [|done]. f_equal. f_equal.
    rewrite <- app_assoc. f_equal.
    change (seq 0 (S (S c))) with (0%nat :: seq 1 (S c)).
    rewrite fmap_cons, <- fmap_S_seq, <- list_fmap_compose.
    cbn [app]. f_equal; [f_equal; lia|].
    apply list_fmap_ext. intros _ i _. unfold compose.
    f_equal; lia.
Qed.

End paged.

(** [fetch_all_rows]: the rows of all pages. *)
Definition fetch_all_rows {A} (server : Z → Z → reply A) (fuel : nat)
    : option (outcome (list A) * list (Z * Z)) :=
  paged_loop server total_of_last (λ rows data, rows ++ data) PAGE_SIZE fuel 0 [] [].

(** [get_distinct_external_ids]: the identifiers of all pages, as strings
    (its [page_size] is [10000] as well). *)
Definition get_distinct_external_ids (container_repr : json → string)
    (server : Z → Z → reply row) (fuel : nat)
    : option (outcome (gset string) * list (Z * Z)) :=
  paged_loop server total_of_first (add_ids container_repr "external_id") 10000
             fuel 0 ∅ [].

(** [fetch_bronze_external_ids] of [compare_csv_vs_bronze.py]. *)
Definition fetch_bronze_external_ids (container_repr : json → string)
    (server : Z → Z → reply row) (fuel : nat)
    : option (outcome (gset string) * list (Z * Z)) :=
  paged_loop server total_of_last (add_ids container_repr "external_id") PAGE_SIZE
             fuel 0 ∅ [].

Lemma foldl_app_concat {A} (pages : list (list A)) (acc : list A) :
  foldl (λ rows data, rows ++ data) acc pages = acc ++ concat pages.
Proof.
  revert acc. induction pages as [|p pages IH]; intros acc; cbn.
  - by rewrite app_nil_r.
  - by rewrite IH, app_assoc.
Qed.

Lemma foldl_add_ids_concat (container_repr : json → string) (key : string)
    (pages : list (list row)) (ids : gset string) :
  foldl (add_ids container_repr key) ids pages
  = add_ids container_repr key ids (concat pages).
Proof.
  revert ids. induction pages as [|p pages IH]; intros ids; [done|].
  change (foldl (add_ids container_repr key) ids (p :: pages))
    with (foldl (add_ids container_repr key) (add_ids container_repr key ids p) pages).
  rewrite IH. unfold add_ids. change (concat (p :: pages)) with (p ++ concat pages).
  by rewrite foldl_app.
Qed.

Lemma fetch_all_rows_no_total {A} (server : Z → Z → reply A) (n fuel : nat) :
  (n < fuel)%nat →
  (∀ k, (k ≤ n)%nat → answers_without_total server total_of_last PAGE_SIZE k) →
  (∀ k, (k < n)%nat → page server PAGE_SIZE k ≠ []) →
  page server PAGE_SIZE n = [] →
  fetch_all_rows server fuel
  = Some (Return (concat (page server PAGE_SIZE <$> seq 0 (S n))),
          window PAGE_SIZE <$> seq 0 (S n)).
Proof.
  intros Hfuel Hans Hfull Hempty. unfold fetch_all_rows.
  pose proof (paged_loop_no_total server total_of_last (λ rows data, rows ++ data)
                PAGE_SIZE n fuel 0 [] []) as H.
  rewrite Nat.sub_0_r in H. change (fst (window PAGE_SIZE 0)) with 0 in H.
  rewrite H; [|lia|lia|intros; apply Hans; lia|intros; apply Hfull; lia|done].
  by rewrite foldl_app_concat.
Qed.

Lemma get_distinct_external_ids_no_total (container_repr : json → string)
    (server : Z → Z → reply row) (n fuel : nat) :
  (n < fuel)%nat →
  (∀ k, (k ≤ n)%nat → answers_without_total server total_of_first 10000 k) →
  (∀ k, (k < n)%nat → page server 10000 k ≠ []) →
  page server 10000 n = [] →
  get_distinct_external_ids container_repr server fuel
  = Some (Return (add_ids container_repr "external_id" ∅
                    (concat (page server 10000 <$> seq 0 (S n)))),
          window 10000 <$> seq 0 (S n)).
Proof.
  intros Hfuel Hans Hfull Hempty. unfold get_distinct_external_ids.
  pose proof (paged_loop_no_total server total_of_first
                (add_ids container_repr "external_id") 10000 n fuel 0 ∅ []) as H.
  rewrite Nat.sub_0_r in H. change (fst (window 10000 0)) with 0 in H.
  rewrite H; [|lia|lia|intros; apply Hans; lia|intros; apply Hfull; lia|done].
  by rewrite foldl_add_ids_concat.
Qed.

Lemma fetch_all_rows_never_empty {A} (server : Z → Z → reply A) :
  (∀ k, answers_without_total server total_of_last PAGE_SIZE k
        ∧ page server PAGE_SIZE k ≠ []) →
  ∀ fuel, fetch_all_rows server fuel = None.
Proof.
  intros Hsrv fuel. unfold fetch_all_rows.
  apply (paged_loop_never_empty server total_of_last _ PAGE_SIZE Hsrv fuel 0).
Qed.

(** C2 (as the code has it). When no response carries a total the fetch
    can read, the loop ends after the first empty page and not before: if
    pages [0..n-1] are non-empty (however short) and page [n] is empty, the
    fetch requests exactly the windows [0..n] and returns what pages
    [0..n] hold; if no page is ever empty it never returns.  This holds for
    [fetch_all_rows] and for [get_distinct_external_ids]. *)
Theorem fetch_without_total_stops_at_first_empty_page :
  (∀ (A : Type) (server : Z → Z → reply A) (n fuel : nat),
     (n < fuel)%nat →
     (∀ k, (k ≤ n)%nat → answers_without_total server total_of_last PAGE_SIZE k) →
     (∀ k, (k < n)%nat → page server PAGE_SIZE k ≠ []) →
     page server PAGE_SIZE n = [] →
     fetch_all_rows server fuel
     = Some (Return (concat (page server PAGE_SIZE <$> seq 0 (S n))),
             window PAGE_SIZE <$> seq 0 (S n)))
  ∧ (∀ (container_repr : json → string) (server : Z → Z → reply row) (n fuel : nat),
     (n < fuel)%nat →
     (∀ k, (k ≤ n)%nat → answers_without_total server total_of_first 10000 k) →
     (∀ k, (k < n)%nat → page server 10000 k ≠ []) →
     page server 10000 n = [] →
     get_distinct_external_ids container_repr server fuel
     = Some (Return (add_ids container_repr "external_id" ∅
                       (concat (page server 10000 <$> seq 0 (S n)))),
             window 10000 <$> seq 0 (S n)))
  ∧ (∀ (A : Type) (server : Z → Z → reply A),
     (∀ k, answers_without_total server total_of_last PAGE_SIZE k
           ∧ page server PAGE_SIZE k ≠ []) →
     ∀ fuel, fetch_all_rows server fuel = None).
Proof.
  split_and!.
  - intros A. apply fetch_all_rows_no_total.
  - apply get_distinct_external_ids_no_total.
  - intros A. apply fetch_all_rows_never_empty.
Qed.

(** C3. When the server serves a collection of [N] rows by windows and
    reports [N] as the total, [fetch_all_rows] returns exactly the
    collection (every row once, in order).  It requests the windows
    [0..m] with [m = (N - 1) // PAGE_SIZE] ([0] for an empty collection) and
    stops there: window [m] is the first whose page is empty or for which
    [range_from + PAGE_SIZE >= N]. *)
Theorem fetch_all_rows_complete {A} (server : Z → Z → reply A) (rows : list A)
    (fuel : nat) :
  serves server total_of_last rows →
  (Z.to_nat ((Z.of_nat (length rows) - 1) / PAGE_SIZE) < fuel)%nat →
  let m := Z.to_nat ((Z.of_nat (length rows) - 1) / PAGE_SIZE) in
  fetch_all_rows server fuel = Some (Return rows, window PAGE_SIZE <$> seq 0 (S m))
  ∧ (∀ k, (k < m)%nat →
       page server PAGE_SIZE k ≠ []
       ∧ fst (window PAGE_SIZE k) + PAGE_SIZE < Z.of_nat (length rows))
  ∧ (page server PAGE_SIZE m = []
     ∨ fst (window PAGE_SIZE m) + PAGE_SIZE >= Z.of_nat (length rows)).
Proof.
  intros Hsrv Hfuel m. unfold PAGE_SIZE in *.
  pose proof (Z.div_mod (Z.of_nat (length rows) - 1) 10000 ltac:(lia)) as Hdm.
  pose proof (Z.mod_pos_bound (Z.of_nat (length rows) - 1) 10000 ltac:(lia)) as Hmod.
  assert (Hm : Z.of_nat m * 10000 < Z.of_nat (length rows) <= (Z.of_nat m + 1) * 10000
               ∨ (m = 0%nat ∧ Z.of_nat (length rows) <= 10000)).
  { unfold m. destruct (Z.le_gt_cases 1 (Z.of_nat (length rows))).
    - left. rewrite Z2Nat.id by (apply Z.div_pos; lia). lia.
    - right. split; [|lia]. replace (Z.of_nat (length rows)) with 0 by lia.
      reflexivity. }
  split_and!.
  - unfold fetch_all_rows.
    destruct (paged_loop_serves server total_of_last (λ rows data, rows ++ data) 10000
                rows ltac:(lia) Hsrv m fuel 0 [] [] id)
      as (acc & Hrun & Hacc); [lia|lia|lia|done|done|].
    cbn in Hacc. subst acc. unfold PAGE_SIZE. rewrite Hrun. reflexivity.
  - intros k Hk. unfold page, window. cbn [fst snd].
    destruct (Hsrv (Z.of_nat k * 10000) (Z.of_nat k * 10000 + 10000 - 1) ltac:(lia))
      as (st & cr & -> & _ & _).
    assert (Z.of_nat k * 10000 + 10000 < Z.of_nat (length rows)) by lia.
    split; [|done]. rewrite Py.slice_nonneg by lia.
    intros Hnil. apply (f_equal length) in Hnil.
    rewrite length_take, length_drop in Hnil. cbn in Hnil. lia.
  - right. unfold window. cbn [fst]. lia.
Qed.

(** *** Runs against concrete servers *)

(** One row in the first window, nothing after it, no [Content-Range]. *)
Definition short_then_empty : Z → Z → reply nat :=
  λ range_from _,
    if range_from =? 0 then Response 200 [7%nat] None else Response 200 [] None.

(** One row in every window, no [Content-Range]. *)
Definition one_row_forever : Z → Z → reply nat :=
  λ _ _, Response 200 [7%nat] None.

(** Three rows, served by windows, with the total in the header. *)
Definition three_rows : Z → Z → reply nat :=
  λ range_from range_to,
    Response 206 (Py.slice [1; 2; 3]%nat range_from (range_to + 1)) (Some "items */3").

(** C2, counterexample: after a first page of one row (fewer than the
    10000 asked for) [fetch_all_rows] asks for the next window; and against
    a server whose every page holds one row it never returns. *)
Lemma short_page_does_not_stop_the_fetch :
  fetch_all_rows short_then_empty 5
  = Some (Return [7%nat], [(0, 9999); (10000, 19999)])
  ∧ ¬ ∃ fuel result, fetch_all_rows one_row_forever fuel = Some result.
Proof.
  split; [reflexivity|].
  intros (fuel & result & Hrun).
  rewrite fetch_all_rows_never_empty in Hrun; [done|].
  intros k. split; [|done]. by exists 200, [7%nat], None.
Qed.

(** C2 (as the code has it) at [short_then_empty]: page 0 is short, page 1
    is the first empty one, and two windows are requested. *)
Lemma fetch_without_total_stops_at_first_empty_page_witness :
  fetch_all_rows short_then_empty 5
  = Some (Return [7%nat], [(0, 9999); (10000, 19999)]).
Proof.
  refine (proj1 fetch_without_total_stops_at_first_empty_page nat short_then_empty
            1%nat 5%nat _ _ _ _).
  - lia.
  - intros [|[|k]] Hk; [by exists 200, [7%nat], None|by exists 200, [], None|lia].
  - intros [|k] Hk; [done|lia].
  - reflexivity.
Defined.

(** C3 at a collection of three rows. *)
Lemma fetch_all_rows_complete_witness :
  fetch_all_rows three_rows 1 = Some (Return [1; 2; 3]%nat, [(0, 9999)]).
Proof.
  refine (proj1 (fetch_all_rows_complete three_rows [1; 2; 3]%nat 1 _ _)).
  - intros range_from range_to _. by exists 206, (Some "items */3").
  - vm_compute. lia.
Defined.

(** The loop on five rows with windows of two: three requests, the last one
    reaching the total. *)
Example paged_loop_five_rows_by_two :
  paged_loop (λ range_from range_to,
                Response 206 (Py.slice [1; 2; 3; 4; 5]%nat range_from (range_to + 1))
                         (Some "0-1/5"))
             total_of_last (λ rows data, rows ++ data) 2 3 0 [] []
  = Some (Return [1; 2; 3; 4; 5]%nat, [(0, 1); (2, 3); (4, 5)]).
Proof. reflexivity. Qed.

(** A page of identifiers: numbers and strings are added as strings, a row
    without identifier or with a null one is skipped. *)
Example get_distinct_external_ids_page :
  get_distinct_external_ids (λ _, "")
    (λ range_from _,
       if range_from =? 0
       then Response 200 [ {["external_id" := JInt 12]};
                           {["external_id" := JStr "12"]};
                           {["external_id" := JNull]};
                           {["other" := JInt 5]};
                           {["external_id" := JStr "ab"]} ]
                     (Some "0-4/5")
       else Response 200 [] None)
    1
  = Some (Return {["12"; "ab"]}, [(0, 9999)]).
Proof. vm_compute. reflexivity. Qed.

End Fetch.

(** ** The reconciler: identifier sets and the report *)

Module Reconcile.
Import Py Fetch.

(** *** Identifier sets *)

Section id_sets.
(** What [str] prints for a list or a dict. *)
Variable container_repr : json → string.

(** The source tier, in both [reconcile_years]:
    [{str(rec.get("uniqueid")) for rec in json_records
      if rec.get("uniqueid") is not None}]. *)
Definition json_ids (json_records : list row) : gset string :=
  list_to_set (omap (identifier container_repr "uniqueid") json_records).

(** [len(v)]. *)
Definition py_len (v : json) : outcome Z :=
  match v with
  | JStr s => Return (Z.of_nat (String.length s))
  | JList l => Return (Z.of_nat (length l))
  | JDict d => Return (Z.of_nat (size d))
  | JNull | JBool _ | JInt _ => Raise TypeError
  end.

(** [s[:4]] on a string. *)
Definition first4 (s : string) : string := String.substring 0 4 s.

(** The year of a raw row in [bronze_ids_by_year], [None] when the row is
    passed over ([continue]): [data = r.get("data") or {}],
    [sd = data.get("showdate")], the test [not sd or len(sd) < 4], and
    [int(sd[:4])] with its [ValueError] caught.  A [showdate] that is a list
    or a dict of four or more elements makes [int(sd[:4])] raise an
    exception that is not caught (rendered as [TypeError]). *)
Definition bronze_year (r : row) : outcome (option Z) :=
  sd ← py_get (py_or (dict_get r "data" JNull) (JDict ∅)) "showdate" JNull;
  if negb (truthy sd) then mret None
  else
    n ← py_len sd;
    if n <? 4 then mret None
    else match sd with
         | JStr s => mret (int_of_string (first4 s))
         | _ => Raise TypeError
         end.

(** The year of a derived row in [silver_ids_by_year]:
    [sd = r.get("showdate")], the same test, and [int(str(sd)[:4])]. *)
Definition silver_year (r : row) : outcome (option Z) :=
  let sd := dict_get r "showdate" JNull in
  if negb (truthy sd) then mret None
  else
    n ← py_len sd;
    if n <? 4 then mret None
    else mret (int_of_string (first4 (py_str container_repr sd))).

(** What one row adds to the set of the year [year]. *)
Definition year_step (row_year : row → outcome (option Z)) (year : Z) (r : row)
    : outcome (option string) :=
  y ← row_year r;
  mret (match y with
        | Some y' => if y' =? year then identifier container_repr "external_id" r
                     else None
        | None => None
        end).

(** The [for r in rows] loop of [bronze_ids_by_year] and
    [silver_ids_by_year]: an exception ends it. *)
Definition collect (step : row → outcome (option string)) (rows : list row)
    : outcome (gset string) :=
  foldl (λ acc r,
           ids ← acc;
           o ← step r;
           mret (match o with Some s => {[ s ]} ∪ ids | None => ids end))
        (Return ∅) rows.

Definition bronze_ids_of_rows (rows : list row) (year : Z) : outcome (gset string) :=
  collect (year_step bronze_year year) rows.

Definition silver_ids_of_rows (rows : list row) (year : Z) : outcome (gset string) :=
  collect (year_step silver_year year) rows.

(** [bronze_ids_by_year] and [silver_ids_by_year]: all rows are fetched
    first; a failed fetch fails the call. *)
Definition ids_by_year (of_rows : list row → Z → outcome (gset string))
    (server : Z → Z → reply row) (fuel : nat) (year : Z)
    : option (outcome (gset string)) :=
  match fetch_all_rows server fuel with
  | None => None
  | Some (Raise e, _) => Some (Raise e)
  | Some (Return rows, _) => Some (of_rows rows year)
  end.

Definition bronze_ids_by_year := ids_by_year bronze_ids_of_rows.
Definition silver_ids_by_year := ids_by_year silver_ids_of_rows.

(** [load_csv_ids] of [compare_csv_vs_bronze.py], on the rows the CSV
    reader yields: [if eid: ids.add(str(eid))]. *)
Definition load_csv_ids (csv_rows : list row) : gset string :=
  foldl (λ ids r,
           let eid := dict_get r "external_id" JNull in
           if truthy eid then {[ py_str container_repr eid ]} ∪ ids else ids)
        ∅ csv_rows.


End id_sets.

(** *** The report *)

(** The order of [sorted] on strings: character by character. *)
Definition str_le (a b : string) : Prop := String.leb a b = true.

Global Instance str_le_dec (a b : string) : Decision (str_le a b).
Proof. unfold str_le. apply _. Defined.

(** [sorted(list(ids))]. *)
Definition py_sorted (l : list string) : list string := merge_sort str_le l.

(** [sorted(list(ids))[:50]]. *)
Definition sample (ids : gset string) : list string :=
  take 50 (py_sorted (elements ids)).

Record report_entry := {
  json_count : nat;
  bronze_count : nat;
  silver_count : nat;
  json_minus_bronze : list string;
  bronze_minus_json : list string;
  bronze_minus_silver : list string;
  silver_minus_bronze : list string
}.

(** The value stored under [str(year)] by both [reconcile_years]. *)
Definition entry (json_ids bronze_ids silver_ids : gset string) : report_entry :=
  {| json_count := size json_ids;
     bronze_count := size bronze_ids;
     silver_count := size silver_ids;
     json_minus_bronze := sample (json_ids ∖ bronze_ids);
     bronze_minus_json := sample (bronze_ids ∖ json_ids);
     bronze_minus_silver := sample (bronze_ids ∖ silver_ids);
     silver_minus_bronze := sample (silver_ids ∖ bronze_ids) |}.

(** The [for year in years] loop of [reconcile_years], the three tiers being
    given as functions of the year; an exception of a tier ends the run
    without a report. *)
Definition reconcile_years (source raw derived : Z → outcome (gset string))
    (years : list Z) : outcome (gmap string report_entry) :=
  foldl (λ acc year,
           report ← acc;
           json_ids ← source year;
           bronze_ids ← raw year;
           silver_ids ← derived year;
           mret (<[pretty year := entry json_ids bronze_ids silver_ids]> report))
        (Return ∅) years.

(** [l] is the first [n] elements of [ids] in the order of [sorted]: sorted,
    without repetition, drawn from [ids], [n] long unless [ids] has fewer
    elements, and below every element of [ids] left out. *)
Definition first_sorted (n : nat) (ids : gset string) (l : list string) : Prop :=
  StronglySorted str_le l
  ∧ NoDup l
  ∧ length l = (n `min` size ids)%nat
  ∧ (∀ x, x ∈ l → x ∈ ids)
  ∧ (∀ x y, x ∈ l → y ∈ ids → y ∉ l → str_le x y).

(** *** Facts about the identifier sets *)

Section id_set_facts.
Variable container_repr : json → string.


Lemma identifier_None (key : string) (r : row) :
  identifier container_repr key r = None ↔ r !! key = None ∨ r !! key = Some JNull.
Proof.
  unfold identifier, dict_get.
  destruct (r !! key) as [[]|]; cbn; intuition congruence.
Qed.





Lemma collect_snoc (step : row → outcome (option string)) (rows : list row) (r : row) :
  collect step (rows ++ [r])
  = (ids ← collect step rows;
     o ← step r;
     mret (match o with Some s => {[ s ]} ∪ ids | None => ids end)).
Proof. unfold collect. by rewrite foldl_app. Qed.






End id_set_facts.

(** *** Facts about the samples *)

Lemma str_le_spec (a b : string) :
  str_le a b ↔ a = b ∨ OrderedTypeEx.String_as_OT.lt a b.
Proof.
  unfold str_le, String.leb.
  destruct (String.compare a b) eqn:E.
  - apply OrderedTypeEx.String_as_OT.cmp_eq in E. tauto.
  - apply OrderedTypeEx.String_as_OT.cmp_lt in E. tauto.
  - split; [done|]. intros [->|Hlt].
    + assert (String.compare b b = Eq) as Hbb
        by (by apply OrderedTypeEx.String_as_OT.cmp_eq).
      congruence.
    + apply OrderedTypeEx.String_as_OT.cmp_lt in Hlt.
      unfold OrderedTypeEx.String_as_OT.cmp in Hlt. congruence.
Qed.

Global Instance str_le_total : Total str_le.
Proof. intros a b. apply String.leb_total. Qed.

Global Instance str_le_trans : Transitive str_le.
Proof.
  intros a b c. rewrite !str_le_spec. intros [->|Hab] [->|Hbc]; auto.
  right. eapply OrderedTypeEx.String_as_OT.lt_trans; eauto.
Qed.

Lemma sample_first_sorted (ids : gset string) : first_sorted 50 ids (sample ids).
Proof.
  unfold sample, py_sorted.
  pose proof (StronglySorted_merge_sort str_le (elements ids)) as Hsorted.
  pose proof (merge_sort_Permutation str_le (elements ids)) as Hperm.
  set (l := merge_sort str_le (elements ids)) in *.
  rewrite <- (take_drop 50 l) in Hsorted.
  assert (Hnodup : NoDup l) by (rewrite Hperm; apply NoDup_elements).
  split_and!.
  - by eapply StronglySorted_app_1_l.
  - apply (sublist_NoDup (take 50 l) l); [done|apply sublist_take].
  - rewrite length_take. unfold size, set_size. cbn. rewrite <- Hperm. done.
  - intros x Hx. apply elem_of_elements. rewrite <- Hperm.
    by apply (subseteq_take 50 l).
  - intros x y Hx Hy Hny.
    apply elem_of_elements in Hy. rewrite <- Hperm, <- (take_drop 50 l) in Hy.
    apply elem_of_app in Hy as [Hy|Hy]; [done|].
    by eapply (StronglySorted_app_1_elem_of str_le).
Qed.

(** *** Facts about the report *)

Lemma reconcile_years_snoc (source raw derived : Z → outcome (gset string))
    (years : list Z) (year : Z) :
  reconcile_years source raw derived (years ++ [year])
  = (report ← reconcile_years source raw derived years;
     json_ids ← source year;
     bronze_ids ← raw year;
     silver_ids ← derived year;
     mret (<[pretty year := entry json_ids bronze_ids silver_ids]> report)).
Proof. unfold reconcile_years. by rewrite foldl_app. Qed.

(** A report that is produced holds, under [str(year)] for every year
    asked for, the entry of that year's three sets. *)
Lemma reconcile_years_lookup (source raw derived : Z → outcome (gset string))
    (years : list Z) (report : gmap string report_entry) :
  reconcile_years source raw derived years = Return report →
  ∀ year, year ∈ years →
    ∃ json_ids bronze_ids silver_ids,
      source year = Return json_ids ∧ raw year = Return bronze_ids
      ∧ derived year = Return silver_ids
      ∧ report !! pretty year = Some (entry json_ids bronze_ids silver_ids).
Proof.
  revert report. induction years as [|y years IH] using rev_ind; intros report.
  - intros _ year Hin. by apply elem_of_nil in Hin.
  - rewrite reconcile_years_snoc.
    destruct (reconcile_years source raw derived years) as [report'|]; [|done]. cbn.
    destruct (source y) as [J|] eqn:HJ; [|done]. cbn.
    destruct (raw y) as [B|] eqn:HB; [|done]. cbn.
    destruct (derived y) as [D|] eqn:HD; [|done]. cbn.
    intros [= <-] year Hin.
    destruct (decide (year = y)) as [->|Hne].
    + exists J, B, D. by rewrite lookup_insert_eq.
    + apply elem_of_app in Hin as [Hin|Hin]; [|by apply list_elem_of_singleton in Hin].
      destruct (IH report' eq_refl year Hin) as (J' & B' & D' & ? & ? & ? & ?).
      exists J', B', D'. split_and!; try done.
      rewrite lookup_insert_ne; [done|]. intros Heq. by apply (inj pretty) in Heq.
Qed.

(** C7. The report entry of a year holds the exact cardinalities of the
    three identifier sets, and for each of the four differences
    source - raw, raw - source, raw - derived and derived - raw its first 50
    elements in the order of the identifier strings (all of them when there
    are fewer); and a report that is produced holds that entry under
    [str(year)] for every year asked for. *)
Theorem report_entry_counts_and_samples :
  (∀ json_ids bronze_ids silver_ids : gset string,
     json_count (entry json_ids bronze_ids silver_ids) = size json_ids
     ∧ bronze_count (entry json_ids bronze_ids silver_ids) = size bronze_ids
     ∧ silver_count (entry json_ids bronze_ids silver_ids) = size silver_ids
     ∧ first_sorted 50 (json_ids ∖ bronze_ids)
         (json_minus_bronze (entry json_ids bronze_ids silver_ids))
     ∧ first_sorted 50 (bronze_ids ∖ json_ids)
         (bronze_minus_json (entry json_ids bronze_ids silver_ids))
     ∧ first_sorted 50 (bronze_ids ∖ silver_ids)
         (bronze_minus_silver (entry json_ids bronze_ids silver_ids))
     ∧ first_sorted 50 (silver_ids ∖ bronze_ids)
         (silver_minus_bronze (entry json_ids bronze_ids silver_ids)))
  ∧ (∀ (source raw derived : Z → outcome (gset string)) (years : list Z)
       (report : gmap string report_entry) (year : Z),
       reconcile_years source raw derived years = Return report →
       year ∈ years →
       ∃ json_ids bronze_ids silver_ids,
         source year = Return json_ids ∧ raw year = Return bronze_ids
         ∧ derived year = Return silver_ids
         ∧ report !! pretty year = Some (entry json_ids bronze_ids silver_ids)).
Proof.
  split.
  - intros J B D. cbn. split_and!; try done; apply sample_first_sorted.
  - intros source raw derived years report year Hrun Hin.
    by apply (reconcile_years_lookup source raw derived years report Hrun).
Qed.

(** The example of the specification: source [{1,2,3}], raw [{2,3,4}],
    derived [{3,4,5}]. *)
Example entry_of_three_tiers :
  entry {["1"; "2"; "3"]} {["2"; "3"; "4"]} {["3"; "4"; "5"]}
  = {| json_count := 3; bronze_count := 3; silver_count := 3;
       json_minus_bronze := ["1"]; bronze_minus_json := ["4"];
       bronze_minus_silver := ["2"]; silver_minus_bronze := ["5"] |}.
Proof. vm_compute. reflexivity. Qed.

(** Sixty identifiers missing from the raw tier: the count is 60, the
    sample has 50 elements and follows the order of strings (["10"] before
    ["2"]). *)
Example entry_truncates_samples_only :
  let e := entry (list_to_set (pretty <$> seq 0 60)) ∅ ∅ in
  json_count e = 60%nat
  ∧ length (json_minus_bronze e) = 50%nat
  ∧ take 4 (json_minus_bronze e) = ["0"; "1"; "10"; "11"]
  ∧ last (json_minus_bronze e) = Some "53".
Proof. vm_compute. done. Qed.


(** Rows of the raw tier for 2016: a numeric and a textual identifier are
    kept as strings, a row without identifier, a row of another year and a
    row whose date does not parse are passed over. *)
Example bronze_ids_of_rows_2016 :
  bronze_ids_of_rows (λ _, "")
    [ {["external_id" := JInt 7; "data" := JDict {["showdate" := JStr "2016-07-01"]}]};
      {["external_id" := JStr "8"; "data" := JDict {["showdate" := JStr "2016-12-31"]}]};
      {["data" := JDict {["showdate" := JStr "2016-01-01"]}]};
      {["external_id" := JInt 9; "data" := JDict {["showdate" := JStr "2015-01-01"]}]};
      {["external_id" := JInt 10; "data" := JDict {["showdate" := JStr "next year"]}]};
      {["external_id" := JInt 11]} ]
    2016
  = Return {["7"; "8"]}.
Proof. vm_compute. reflexivity. Qed.

Example json_ids_of_records :
  json_ids (λ _, "")
    [ {["uniqueid" := JInt 1]}; {["uniqueid" := JStr "2"]}; {["name" := JStr "x"]};
      {["uniqueid" := JNull]}; {["uniqueid" := JInt 1]} ]
  = {["1"; "2"]}.
Proof. vm_compute. reflexivity. Qed.

(** C7 at a run over one year whose three tiers are the sets of the
    specification's example. *)
Lemma report_entry_counts_and_samples_witness :
  ∃ report,
    reconcile_years (λ _, Return {["1"; "2"; "3"]}) (λ _, Return {["2"; "3"; "4"]})
                    (λ _, Return {["3"; "4"; "5"]}) [2016] = Return report
    ∧ ∃ json_ids bronze_ids silver_ids,
        Return {["1"; "2"; "3"]} = Return json_ids
        ∧ Return {["2"; "3"; "4"]} = Return bronze_ids
        ∧ Return {["3"; "4"; "5"]} = Return silver_ids
        ∧ report !! "2016" = Some (entry json_ids bronze_ids silver_ids).
Proof.
  eexists. split; [reflexivity|].
  refine (proj2 report_entry_counts_and_samples
            (λ _, Return {["1"; "2"; "3"]}) (λ _, Return {["2"; "3"; "4"]})
            (λ _, Return {["3"; "4"; "5"]}) [2016] _ 2016 eq_refl _).
  apply list_elem_of_here.
Defined.


End Reconcile.

(** ** More on the ingestion run: attempts, coverage, [ingest_years] *)

Module IngestRun.
Import Py Ingest.

(** A response the scripts can read whose results are a list. *)
Definition readable (v : json) : Prop :=
  ∃ o results, read_outcome v = Return o ∧ perBatchResults o = JList results.

Lemma read_outcome_returns (v : json) (o : IngestOutcome) :
  read_outcome v = Return o → ∃ d, v = JDict d.
Proof. destruct v; try done. by eexists. Qed.

(** On two readable responses the aggregation returns, and what it returns
    is readable again. *)
Lemma aggregate_of_readable (res_left res_right : json) :
  readable res_left → readable res_right →
  ∃ agg, aggregate res_left res_right = Return agg ∧ readable agg.
Proof.
  intros (ol & rl & Hol & Hrl) (or & rr & Hor & Hrr).
  destruct (read_outcome_returns _ _ Hol) as [dl ->].
  destruct (read_outcome_returns _ _ Hor) as [dr ->].
  apply read_outcome_dict in Hol as (Hal & Hnl & Hul & Hpl).
  apply read_outcome_dict in Hor as (Har & Hnr & Hur & Hpr).
  exists (combined_response (accepted ol && accepted or)
            (newCount ol + newCount or) (updatedCount ol + updatedCount or)
            (JList (rl ++ rr))).
  split.
  - unfold aggregate. cbn [py_get]. unfold mbind, outcome_bind, mret, outcome_ret.
    rewrite Hnl, Hnr, Hul, Hur, <- Hpl, <- Hpr, Hrl, Hrr. cbn [py_add].
    rewrite Hal, Har. unfold combined_response.
    by destruct (truthy (dict_get dl "success" (JBool false))).
  - eexists _, (rl ++ rr). rewrite read_combined_response. split; [done|].
    cbn. unfold py_or. cbn. by destruct (rl ++ rr).
Qed.

(** X1. Aggregation is closed on readable responses: if both half-responses
    are JSON objects whose counters convert with [int] and whose results are
    a list (or missing), the aggregation returns (it does not raise) a
    response of that kind again, so nested bisections compose. *)
Theorem aggregate_keeps_responses_readable (res_left res_right : json) :
  readable res_left → readable res_right →
  ∃ agg, aggregate res_left res_right = Return agg ∧ readable agg.
Proof. apply aggregate_of_readable. Qed.

Lemma aggregate_keeps_responses_readable_witness :
  ∃ agg, aggregate (JDict {["total_new_records" := JStr " 3 "]})
                   (JDict {["results" := JList [JInt 1]]})
         = Return agg ∧ readable agg.
Proof.
  apply (aggregate_keeps_responses_readable
           (JDict {["total_new_records" := JStr " 3 "]})
           (JDict {["results" := JList [JInt 1]]}));
    eexists _, _; split; reflexivity.
Defined.

(** X2. The aggregation needs JSON objects: if either half-response is
    anything else (an array, a string, a number, null), it raises, although
    [post_batch] itself returns such a response unchanged. *)
Theorem aggregate_of_non_object_raises (res_left res_right : json) :
  (∀ d, res_left ≠ JDict d) ∨ (∀ d, res_right ≠ JDict d) →
  ∃ e, aggregate res_left res_right = Raise e.
Proof.
  intros Hnot.
  destruct (aggregate res_left res_right) as [agg|e] eqn:Hagg; [|by eexists].
  apply aggregate_returns in Hagg as (ol & or & _ & Hol & Hor & _).
  apply read_outcome_returns in Hol as [dl ->].
  apply read_outcome_returns in Hor as [dr ->].
  destruct Hnot as [H|H]; by edestruct H.
Qed.

Lemma aggregate_of_non_object_raises_witness :
  ∃ e, aggregate (JDict {["success" := JBool true]}) (JList []) = Raise e.
Proof.
  apply (aggregate_of_non_object_raises (JDict {["success" := JBool true]}) (JList [])).
  right. intros d. discriminate.
Defined.

Section run.
Context {R Remote : Type}.
Variable endpoint : Remote → list R → reply * Remote.


(** The loop over the batches of one year in [ingest_years]: each batch is
    submitted, the two counters of its response are read with
    [int(result.get(..., 0))] and added to the totals; the last [print]
    reads [result.get('success', False)]. *)
Fixpoint ingest_batches (batches : list (list R)) (total_new total_updated : Z)
    : M (R := R) (Remote := Remote) (Z * Z) :=
  match batches with
  | [] => ret (total_new, total_updated)
  | batch :: rest =>
      bind (post_batch_adaptive endpoint batch) (λ result,
      bind (lift (py_get result "total_new_records" (JInt 0) ≫= py_int)) (λ new_count,
      bind (lift (py_get result "total_updated_records" (JInt 0) ≫= py_int))
        (λ updated_count,
      bind (lift (py_get result "success" (JBool false))) (λ _,
      ingest_batches rest (total_new + new_count) (total_updated + updated_count)))))
  end.

(** The body of the [for year in years] loop of [ingest_years], once the
    year's records are loaded: [batches = chunk_list(records, batch_size)]
    and the loop over them.  No result when [chunk_list] does not return. *)
Definition ingest_year (records : list R) (batch_size : Z) : M (Z * Z) :=
  match Chunk.chunk_list records batch_size with
  | Some batches => ingest_batches batches 0 0
  | None => out_of_fuel
  end.

(** *** The attempts of [post_batch] *)

Lemma classify_not_failed_after_retries (r : reply) (last : option exn) :
  classify r ≠ Raise (FailedAfterRetries last).
Proof.
  destruct r as [what|st body]; cbn; [done|].
  repeat (case_match; try done).
Qed.

Lemma post_batch_cases (batch : list R) (w : world) :
  ∃ o w',
    post_batch endpoint batch w = Some (o, w')
    ∧ ((∃ v, o = Return v ∧ classify (endpoint (remote w) batch).1 = Return v
             ∧ trace w' = trace w ++ [EvPost batch]
             ∧ remote w' = (endpoint (remote w) batch).2)
       ∨ (∃ e1, classify (endpoint (remote w) batch).1 = Raise e1
                ∧ o = classify (endpoint (endpoint (remote w) batch).2 batch).1
                ∧ trace w' = trace w ++ [EvPost batch; EvSleep RETRY_SLEEP_SECONDS;
                                         EvPost batch]
                ∧ remote w' = (endpoint (endpoint (remote w) batch).2 batch).2))
    ∧ ∀ last, o ≠ Raise (FailedAfterRetries last).
Proof.
  rewrite post_batch_run.
  destruct (endpoint (remote w) batch) as [r1 s1] eqn:E1. cbn [fst snd].
  destruct (classify r1) as [v|e1] eqn:C1.
  - eexists _, _. split; [done|]. split; [|done].
    left. by exists v.
  - destruct (endpoint s1 batch) as [r2 s2] eqn:E2.
    eexists _, _. split; [done|]. split.
    + right. by exists e1.
    + intros last. apply classify_not_failed_after_retries.
Qed.

(** X3. [post_batch] posts the batch once or twice and never more: once,
    without sleeping, when the first reply is accepted; otherwise it sleeps
    [RETRY_SLEEP_SECONDS] once and posts again, and the second reply alone
    decides what is returned or raised.  The [RuntimeError] after the loop
    ("Failed after retries") is never raised. *)
Theorem post_batch_attempts (batch : list R) (w : world) :
  ∃ o w',
    post_batch endpoint batch w = Some (o, w')
    ∧ ((∃ v, o = Return v ∧ classify (endpoint (remote w) batch).1 = Return v
             ∧ trace w' = trace w ++ [EvPost batch]
             ∧ remote w' = (endpoint (remote w) batch).2)
       ∨ (∃ e1, classify (endpoint (remote w) batch).1 = Raise e1
                ∧ o = classify (endpoint (endpoint (remote w) batch).2 batch).1
                ∧ trace w' = trace w ++ [EvPost batch; EvSleep RETRY_SLEEP_SECONDS;
                                         EvPost batch]
                ∧ remote w' = (endpoint (endpoint (remote w) batch).2 batch).2))
    ∧ ∀ last, o ≠ Raise (FailedAfterRetries last).
Proof. apply post_batch_cases. Qed.

(** *** What a returned response covers *)



(** *** The loop of [ingest_years] *)




End run.



Example ingest_year_five_by_two :
  ingest_year (size_limited 60) [1; 2; 3; 4; 5]%nat 2 start
  = Some (Return (5, 0),
          World 3%nat [EvCall 0 2; EvPost [1; 2]%nat; EvCall 0 2; EvPost [3; 4]%nat;
                       EvCall 0 1; EvPost [5%nat]]).
Proof. vm_compute. reflexivity. Qed.

End IngestRun.

(** ** More on [chunk_list] and the paged fetch *)

Module FetchFacts.
Import Py Fetch.

(** X6. With a batch size below one, [chunk_list] returns the empty
    partition of an empty list and never returns on a list that has a
    record: its loop does not advance. *)
Theorem chunk_list_without_progress {A} (items : list A) (chunk_size : Z) :
  chunk_size <= 0 →
  (items = [] → Chunk.chunk_list items chunk_size = Some [])
  ∧ (items ≠ [] → ∀ fuel, Chunk.chunk_loop fuel items chunk_size 0 [] = None).
Proof.
  intros Hsize. split.
  - by intros ->.
  - intros Hne fuel. apply Chunk.chunk_loop_diverges; [done|].
    destruct items; [done|]. cbn. lia.
Qed.

Lemma chunk_list_without_progress_witness :
  Chunk.chunk_loop 100 [1; 2; 3]%nat 0 0 [] = None.
Proof.
  apply (proj2 (chunk_list_without_progress [1; 2; 3]%nat 0 (Z.le_refl 0))).
  discriminate.
Defined.

(** What a fetch gives with its result mapped by [g]. *)
Definition result_map {A B} (g : A → B) (r : option (outcome A * list (Z * Z)))
    : option (outcome B * list (Z * Z)) :=
  match r with
  | Some (Return a, requests) => Some (Return (g a), requests)
  | Some (Raise e, requests) => Some (Raise e, requests)
  | None => None
  end.

Section loops.
Context {A Acc : Type}.
Variable server : Z → Z → reply A.
Variable parse_total : option string → option Z.
Variable accumulate : Acc → list A → Acc.
Variable page_size : Z.


End loops.

(** The same loop with two accumulators that [g] relates gives results
    that [g] relates, with the same requests. *)
Lemma paged_loop_map {A Acc1 Acc2} (server : Z → Z → reply A)
    (parse_total : option string → option Z) (page_size : Z)
    (accumulate1 : Acc1 → list A → Acc1) (accumulate2 : Acc2 → list A → Acc2)
    (g : Acc1 → Acc2) :
  (∀ acc data, g (accumulate1 acc data) = accumulate2 (g acc) data) →
  ∀ fuel range_from acc requests,
    paged_loop server parse_total accumulate2 page_size fuel range_from (g acc) requests
    = result_map g
        (paged_loop server parse_total accumulate1 page_size fuel range_from acc requests).
Proof.
  intros Hg. induction fuel as [|fuel IH]; intros range_from acc requests; [done|].
  cbn [paged_loop].
  destruct (server range_from (range_from + page_size - 1)) as [what|st data cr]; [done|].
  destruct (is_error_status st); [done|].
  destruct (_ || _).
  - cbn. by rewrite Hg.
  - by rewrite <- Hg, IH.
Qed.


(** X8. [fetch_bronze_external_ids] makes the requests of [fetch_all_rows]
    and returns the identifiers of the rows that one returns (and fails as
    it fails). *)
Theorem fetch_bronze_external_ids_of_rows (container_repr : json → string)
    (server : Z → Z → reply row) (fuel : nat) :
  fetch_bronze_external_ids container_repr server fuel
  = result_map (add_ids container_repr "external_id" ∅) (fetch_all_rows server fuel).
Proof.
  unfold fetch_bronze_external_ids, fetch_all_rows.
  exact (paged_loop_map server total_of_last PAGE_SIZE (λ rows data, rows ++ data)
           (add_ids container_repr "external_id")
           (add_ids container_repr "external_id" ∅)
           (λ rows data, foldl_app _ _ _ _) fuel 0 [] []).
Qed.

(** X9. When the server serves a collection by windows and reports its
    size after the first slash of [Content-Range],
    [get_distinct_external_ids] returns the identifiers of the whole
    collection, after [(N - 1) // 10000 + 1] requests. *)
Theorem get_distinct_external_ids_complete (container_repr : json → string)
    (server : Z → Z → reply row) (rows : list row) (fuel : nat) :
  serves server total_of_first rows →
  (Z.to_nat ((Z.of_nat (length rows) - 1) / 10000) < fuel)%nat →
  get_distinct_external_ids container_repr server fuel
  = Some (Return (add_ids container_repr "external_id" ∅ rows),
          window 10000 <$> seq 0 (S (Z.to_nat ((Z.of_nat (length rows) - 1) / 10000)))).
Proof.
  intros Hsrv Hfuel. unfold get_distinct_external_ids.
  set (m := Z.to_nat ((Z.of_nat (length rows) - 1) / 10000)) in *.
  pose proof (Z.div_mod (Z.of_nat (length rows) - 1) 10000 ltac:(lia)) as Hdm.
  pose proof (Z.mod_pos_bound (Z.of_nat (length rows) - 1) 10000 ltac:(lia)) as Hmod.
  assert (Hm : Z.of_nat m * 10000 < Z.of_nat (length rows) <= (Z.of_nat m + 1) * 10000
               ∨ (m = 0%nat ∧ Z.of_nat (length rows) <= 10000)).
  { unfold m. destruct (Z.le_gt_cases 1 (Z.of_nat (length rows))).
    - left. rewrite Z2Nat.id by (apply Z.div_pos; lia). lia.
    - right. split; [|lia]. replace (Z.of_nat (length rows)) with 0 by lia.
      reflexivity. }
  assert (Hmap := paged_loop_map server total_of_first 10000 (λ rows data, rows ++ data)
             (add_ids container_repr "external_id")
             (add_ids container_repr "external_id" ∅)
             (λ rows data, foldl_app _ _ _ _) fuel 0 [] []).
  change (add_ids container_repr "external_id" ∅ []) with (∅ : gset string) in Hmap.
  rewrite Hmap.
  destruct (paged_loop_serves server total_of_first (λ rows data, rows ++ data) 10000
              rows ltac:(lia) Hsrv m fuel 0 [] [] id)
    as (acc & Hrun & Hacc); [lia|lia|lia|done|done|].
  cbn in Hacc. subst acc. rewrite Hrun. reflexivity.
Qed.



(** Two rows served with their total after the only slash. *)
Definition two_rows : Z → Z → reply row :=
  λ range_from range_to,
    Response 206
      (Py.slice [ {["external_id" := JInt 4]}; {["external_id" := JStr "b"]} ]
                range_from (range_to + 1))
      (Some "0-1/2").

Lemma get_distinct_external_ids_complete_witness :
  get_distinct_external_ids (λ _, "") two_rows 1
  = Some (Return {["4"; "b"]}, [(0, 9999)]).
Proof.
  refine (eq_trans
    (get_distinct_external_ids_complete (λ _, "") two_rows
       [ {["external_id" := JInt 4]}; {["external_id" := JStr "b"]} ] 1 _ _) _).
  - intros range_from range_to _. by exists 206, (Some "0-1/2").
  - vm_compute. lia.
  - vm_compute. reflexivity.
Defined.

(** *** Decimal totals *)

Definition chars (s : string) : list ascii := String.list_ascii_of_string s.

(** The character [-]. *)
Definition minus_sign : ascii := Stdlib.Strings.Ascii.ascii_of_N 45.

(** A decimal digit. *)
Definition is_digit (c : ascii) : bool := (48 <=? code c) && (code c <=? 57).

Lemma is_digit_pretty_N_char (d : N) : is_digit (pretty_N_char d) = true.
Proof. unfold pretty_N_char. by repeat case_match. Qed.

Lemma digit_value_pretty_N_char (d : N) :
  (d < 10)%N → digit_value (pretty_N_char d) = Some (Z.of_N d).
Proof.
  intros Hd.
  assert (d = 0 ∨ d = 1 ∨ d = 2 ∨ d = 3 ∨ d = 4 ∨ d = 5 ∨ d = 6 ∨ d = 7 ∨ d = 8 ∨ d = 9)%N
    as Hcases by lia.
  repeat (destruct Hcases as [->|Hcases]; [reflexivity|]). by subst.
Qed.

Lemma is_digit_code (c : ascii) : is_digit c = true → 48 <= code c <= 57.
Proof. unfold is_digit. lia. Qed.

Lemma chars_pretty_N_go_digits (x : N) (s : string) :
  Forall (λ c, is_digit c = true) (chars s) →
  Forall (λ c, is_digit c = true) (chars (pretty_N_go x s)).
Proof.
  revert s. induction (N.lt_wf_0 x) as [x _ IH]; intros s Hs.
  destruct (decide (x = 0)%N) as [->|Hx]; [by rewrite pretty_N_go_0|].
  rewrite pretty_N_go_step by lia. apply IH; [apply N.div_lt; lia|].
  constructor; [apply is_digit_pretty_N_char|done].
Qed.

Lemma parse_digits_pretty_N_go (x : N) :
  ∀ (s : string) (acc : Z) (after_digit : bool),
    ∃ m, parse_digits (chars (pretty_N_go x s)) acc after_digit
         = parse_digits (chars s) (acc * m + Z.of_N x)
             (after_digit || negb (x =? 0)%N).
Proof.
  induction (N.lt_wf_0 x) as [x _ IH]; intros s acc b.
  destruct (decide (x = 0)%N) as [->|Hx].
  - exists 1. rewrite pretty_N_go_0. cbn. rewrite orb_false_r. f_equal. lia.
  - rewrite pretty_N_go_step by lia.
    destruct (IH (x `div` 10)%N ltac:(apply N.div_lt; lia)
                (String (pretty_N_char (x `mod` 10)) s) acc b) as (m & ->).
    exists (10 * m). change (chars (String ?c ?s)) with (c :: chars s).
    cbn [parse_digits]. rewrite digit_value_pretty_N_char by (apply N.mod_lt; lia).
    replace (b || negb (x =? 0)%N) with true
      by (destruct (N.eqb_spec x 0); [done|by rewrite orb_true_r]).
    f_equal. pose proof (N.div_mod x 10 ltac:(lia)). lia.
Qed.

Lemma drop_spaces_plain (l : list ascii) :
  Forall (λ c, is_space c = false) l → drop_spaces l = l.
Proof. destruct 1 as [|c l Hc _]; [done|]. cbn. by rewrite Hc. Qed.

Lemma strip_plain (l : list ascii) :
  Forall (λ c, is_space c = false) l → strip l = l.
Proof.
  intros Hl. unfold strip. rewrite (drop_spaces_plain l Hl).
  rewrite drop_spaces_plain by by apply Forall_reverse.
  apply reverse_involutive.
Qed.

Lemma digits_plain (l : list ascii) :
  Forall (λ c, is_digit c = true) l → Forall (λ c, is_space c = false) l.
Proof.
  intros Hl. eapply Forall_impl; [exact Hl|].
  intros c Hc%is_digit_code. unfold is_space. lia.
Qed.

Lemma int_of_string_pretty_N_go (x : N) :
  x ≠ 0%N → int_of_string (pretty_N_go x "") = Some (Z.of_N x).
Proof.
  intros Hx. unfold int_of_string. fold (chars (pretty_N_go x "")).
  pose proof (chars_pretty_N_go_digits x "" ltac:(constructor)) as Hdigits.
  destruct (parse_digits_pretty_N_go x "" 0 false) as (m & Hparse).
  rewrite strip_plain by by apply digits_plain.
  replace (negb (x =? 0)%N) with true in Hparse
    by (symmetry; apply negb_true_iff, N.eqb_neq, Hx).
  change (parse_digits (chars "") ?a true) with (Some a) in Hparse.
  destruct (chars (pretty_N_go x "")) as [|c l]; [discriminate Hparse|].
  apply Forall_cons in Hdigits as [Hc%is_digit_code _].
  destruct (Z.eqb_spec (code c) 43); [lia|].
  destruct (Z.eqb_spec (code c) 45); [lia|].
  rewrite Hparse. f_equal; lia.
Qed.

(** [int(str(n)) == n]. *)
Lemma int_of_string_pretty (n : Z) : int_of_string (pretty n) = Some n.
Proof.
  destruct n as [|p|p]; [done|..].
  - unfold pretty, pretty_Z, pretty, pretty_positive, pretty, pretty_N.
    case_decide; [done|]. by rewrite int_of_string_pretty_N_go.
  - unfold pretty, pretty_Z, pretty, pretty_positive, pretty, pretty_N.
    case_decide; [done|].
    pose proof (int_of_string_pretty_N_go (N.pos p) ltac:(done)) as Hpos.
    pose proof (chars_pretty_N_go_digits (N.pos p) "" ltac:(constructor)) as Hdigits.
    unfold int_of_string in *. fold (chars (pretty_N_go (N.pos p) "")) in *.
    change (String.list_ascii_of_string ("-" +:+ pretty_N_go (N.pos p) ""))
      with (minus_sign :: chars (pretty_N_go (N.pos p) "")).
    rewrite strip_plain in Hpos by by apply digits_plain.
    rewrite strip_plain by (constructor; [done|by apply digits_plain]).
    change (code minus_sign =? 43) with false.
    change (code minus_sign =? 45) with true. cbv iota.
    destruct (chars (pretty_N_go (N.pos p) "")) as [|c l]; [done|].
    apply Forall_cons in Hdigits as [Hc%is_digit_code _].
    destruct (Z.eqb_spec (code c) 43); [lia|].
    destruct (Z.eqb_spec (code c) 45); [lia|].
    by rewrite Hpos.
Qed.






Lemma last_segment_after_first (s t : string) :
  after_first_slash s = Some t → contains_slash t = false → last_segment s = t.
Proof.
  induction s as [|c s IH]; [done|]. cbn.
  destruct (code c =? 47).
  - intros [= ->] ->. done.
  - intros Hs Ht. rewrite (IH Hs Ht).
    assert (contains_slash s = true) as ->; [|done].
    clear IH Ht. revert Hs. induction s as [|c' s IH]; [done|]. cbn.
    destruct (code c' =? 47); [done|]. apply IH.
Qed.

(** Converting an integer to text with [str] and back with [int] gives
    the integer again, for every integer. *)
Lemma int_of_str_round_trip (container_repr : json → string) (n : Z) :
  py_int (JStr (py_str container_repr (JInt n))) = Return n.
Proof. cbn. by rewrite int_of_string_pretty. Qed.


(** X11. The two ways of reading the total agree on every header that holds
    at most one slash: without a slash both give no total, and with one slash
    both convert what follows it. *)
Theorem total_readers_agree (header : option string) :
  (∀ s t, header = Some s → after_first_slash s = Some t → contains_slash t = false) →
  total_of_first header = total_of_last header.
Proof.
  intros Hone. unfold total_of_first, total_of_last.
  destruct header as [s|]; [|done]. cbn [default from_option id].
  destruct (contains_slash s) eqn:Hs; [|done].
  destruct (after_first_slash s) as [t|] eqn:Ht.
  - cbn. by rewrite (last_segment_after_first s t Ht (Hone s t eq_refl Ht)).
  - exfalso. clear Hone. induction s as [|c s IH]; [done|]. cbn in *.
    destruct (code c =? 47); [done|]. by apply IH.
Qed.

Lemma total_readers_agree_witness :
  total_of_first (Some "items 0-9/25") = total_of_last (Some "items 0-9/25").
Proof.
  apply (total_readers_agree (Some "items 0-9/25")).
  intros s t [= <-] [= <-]. reflexivity.
Defined.

End FetchFacts.

(** ** More on the identifier sets and the report *)

Module ReconcileFacts.
Import Py Fetch Reconcile.

Section sets.
Variable container_repr : json → string.

Lemma add_id_elem_iff (key : string) (r : row) (ids : gset string) (s : string) :
  s ∈ add_id container_repr key ids r
  ↔ s ∈ ids ∨ identifier container_repr key r = Some s.
Proof.
  unfold add_id. destruct (identifier container_repr key r) as [s'|].
  - rewrite elem_of_union, elem_of_singleton. split.
    + intros [->|?]; [by right|by left].
    + intros [?|[= ->]]; [by right|by left].
  - split; [by left|]. by intros [?|?].
Qed.

Lemma add_ids_elem_iff (key : string) (data : list row) (ids : gset string) (s : string) :
  s ∈ add_ids container_repr key ids data
  ↔ s ∈ ids ∨ ∃ r, r ∈ data ∧ identifier container_repr key r = Some s.
Proof.
  unfold add_ids. revert ids.
  induction data as [|r data IH]; intros ids; cbn [foldl].
  - split; [by left|]. intros [?|(r & Hr & _)]; [done|]. by apply elem_of_nil in Hr.
  - rewrite IH, add_id_elem_iff. split.
    + intros [[?|?]|(r' & ? & ?)]; [by left| |].
      * right. exists r. split; [left|done].
      * right. exists r'. split; [by right|done].
    + intros [?|(r' & [->|?]%elem_of_cons & ?)]; [by left; left|by left; right|].
      right. by exists r'.
Qed.

(** X12. The identifier sets lose nothing: a string is in the source set
    exactly when some record holds an identifier ([uniqueid] not [None])
    that [str] turns into it, and the set a fetch accumulates holds exactly
    what it held before and the identifiers of the rows of the page. *)
Theorem id_sets_hold_every_identifier :
  (∀ (json_records : list row) (s : string),
     s ∈ json_ids container_repr json_records
     ↔ ∃ r, r ∈ json_records ∧ identifier container_repr "uniqueid" r = Some s)
  ∧ (∀ (ids : gset string) (data : list row) (s : string),
       s ∈ add_ids container_repr "external_id" ids data
       ↔ s ∈ ids ∨ ∃ r, r ∈ data ∧ identifier container_repr "external_id" r = Some s).
Proof.
  split.
  - intros json_records s. unfold json_ids.
    rewrite elem_of_list_to_set, list_elem_of_omap. done.
  - intros ids data s. apply add_ids_elem_iff.
Qed.

Lemma collect_elem_iff (step : row → outcome (option string)) (rows : list row)
    (ids : gset string) :
  collect step rows = Return ids →
  ∀ s, s ∈ ids ↔ ∃ r, r ∈ rows ∧ step r = Return (Some s).
Proof.
  revert ids. induction rows as [|r rows IH] using rev_ind; intros ids.
  - intros [= <-] s. split; [set_solver|]. intros (r & Hr & _). by apply elem_of_nil in Hr.
  - rewrite collect_snoc. destruct (collect step rows) as [ids'|]; [|done]. cbn.
    specialize (IH ids' eq_refl).
    destruct (step r) as [[s'|]|] eqn:Hr; cbn; [| |done]; intros [= <-] s.
    + rewrite elem_of_union, elem_of_singleton, IH. split.
      * intros [->|(r' & Hr' & Hs)].
        -- exists r. split; [|done]. apply elem_of_app. right. left.
        -- exists r'. split; [|done]. apply elem_of_app. by left.
      * intros (r' & [Hr'|Hr']%elem_of_app & Hs).
        -- right. by exists r'.
        -- apply list_elem_of_singleton in Hr' as ->. left. congruence.
    + rewrite IH. split.
      * intros (r' & Hr' & Hs). exists r'. split; [|done]. apply elem_of_app. by left.
      * intros (r' & [Hr'|Hr']%elem_of_app & Hs).
        -- by exists r'.
        -- apply list_elem_of_singleton in Hr' as ->. congruence.
Qed.

Lemma year_step_Some_iff (row_year : row → outcome (option Z)) (year : Z) (r : row)
    (s : string) :
  year_step container_repr row_year year r = Return (Some s)
  ↔ row_year r = Return (Some year)
    ∧ identifier container_repr "external_id" r = Some s.
Proof.
  unfold year_step. destruct (row_year r) as [[y|]|]; cbn.
  - destruct (Z.eqb_spec y year) as [->|Hne].
    + split; [by intros [= ->]|by intros [_ ->]].
    + split; [done|]. intros [Hy _]. congruence.
  - split; [done|]. by intros [? _].
  - split; [done|]. by intros [? _].
Qed.

(** X13. When [bronze_ids_by_year] or [silver_ids_by_year] gets through its
    rows, the set it returns for a year holds exactly the identifiers (as
    strings) of the rows whose date starts with that year: no row of another
    year contributes, and no row of that year with an identifier is left
    out. *)
Theorem ids_by_year_are_the_rows_of_the_year (rows : list row) (year : Z)
    (ids : gset string) :
  (bronze_ids_of_rows container_repr rows year = Return ids →
   ∀ s, s ∈ ids ↔ ∃ r, r ∈ rows ∧ bronze_year r = Return (Some year)
                       ∧ identifier container_repr "external_id" r = Some s)
  ∧ (silver_ids_of_rows container_repr rows year = Return ids →
     ∀ s, s ∈ ids ↔ ∃ r, r ∈ rows ∧ silver_year container_repr r = Return (Some year)
                         ∧ identifier container_repr "external_id" r = Some s).
Proof.
  split; intros Hrun s; rewrite (collect_elem_iff _ _ _ Hrun s);
    by setoid_rewrite year_step_Some_iff.
Qed.

Lemma collect_raises (step : row → outcome (option string)) (rows1 rows2 : list row)
    (r : row) (e : exn) :
  step r = Raise e → ∃ e', collect step (rows1 ++ r :: rows2) = Raise e'.
Proof.
  intros Hr. unfold collect. rewrite foldl_app. cbn [foldl].
  assert (∃ e', (foldl (λ acc r0, ids ← acc; o ← step r0;
                    mret (match o with Some s => {[ s ]} ∪ ids | None => ids end))
                   (Return ∅) rows1
                 ≫= λ ids, o ← step r;
                    mret (match o with Some s => {[ s ]} ∪ ids | None => ids end))
                = Raise e') as [e' ->].
  { destruct (foldl _ _ rows1); cbn; rewrite ?Hr; by eexists. }
  clear. induction rows2 as [|r2 rows2 IH]; [by eexists|]. apply IH.
Qed.

(** X14. A date that is a number other than zero has no length:
    one such row makes [silver_ids_by_year] raise for every year, whatever
    its other rows hold, and [bronze_ids_by_year] likewise when the number
    is the [showdate] of the row's [data]. *)
Theorem numeric_showdate_raises (rows1 rows2 : list row) (r : row) (n year : Z) :
  n ≠ 0 →
  (r !! "showdate" = Some (JInt n) →
   silver_year container_repr r = Raise TypeError
   ∧ ∃ e, silver_ids_of_rows container_repr (rows1 ++ r :: rows2) year = Raise e)
  ∧ (∀ data, r !! "data" = Some (JDict data) → data !! "showdate" = Some (JInt n) →
     bronze_year r = Raise TypeError
     ∧ ∃ e, bronze_ids_of_rows container_repr (rows1 ++ r :: rows2) year = Raise e).
Proof.
  intros Hn. assert (Ht : truthy (JInt n) = true).
  { cbn. by destruct (Z.eqb_spec n 0). }
  split.
  - intros Hsd.
    assert (Hy : silver_year container_repr r = Raise TypeError).
    { unfold silver_year, dict_get. rewrite Hsd. cbn [default from_option id].
      by rewrite Ht. }
    split; [done|]. apply (collect_raises _ _ _ _ TypeError).
    unfold year_step. by rewrite Hy.
  - intros data Hdata Hsd.
    assert (Hy : bronze_year r = Raise TypeError).
    { unfold bronze_year, dict_get. rewrite Hdata. cbn [default from_option id].
      assert (data ≠ ∅) as Hne by (intros ->; by rewrite lookup_empty in Hsd).
      unfold py_or. cbn [truthy]. rewrite bool_decide_eq_false_2 by done.
      cbn [negb py_get]. unfold dict_get. rewrite Hsd. cbn [default from_option id].
      cbn [mbind outcome_bind]. by rewrite Ht. }
    split; [done|]. apply (collect_raises _ _ _ _ TypeError).
    unfold year_step. by rewrite Hy.
Qed.

(** X15. On rows whose identifier is text or absent (as a CSV reader yields
    them), [load_csv_ids] holds exactly the non-empty identifiers: unlike
    the other identifier sets it drops the empty string. *)
Theorem load_csv_ids_drops_empty (csv_rows : list row) :
  Forall (λ r : row, ∀ v, r !! "external_id" = Some v → v = JNull ∨ ∃ s, v = JStr s)
         csv_rows →
  ∀ s, s ∈ load_csv_ids container_repr csv_rows
       ↔ s ≠ "" ∧ ∃ r, r ∈ csv_rows ∧ r !! "external_id" = Some (JStr s).
Proof.
  unfold load_csv_ids.
  cut (∀ ids : gset string,
    Forall (λ r : row, ∀ v, r !! "external_id" = Some v → v = JNull ∨ ∃ s, v = JStr s)
           csv_rows →
    ∀ s, s ∈ foldl (λ ids r,
                      let eid := dict_get r "external_id" JNull in
                      if truthy eid then {[ py_str container_repr eid ]} ∪ ids else ids)
                   ids csv_rows
         ↔ s ∈ ids ∨ (s ≠ "" ∧ ∃ r, r ∈ csv_rows ∧ r !! "external_id" = Some (JStr s))).
  { intros H Hrows s. rewrite (H ∅ Hrows s). split; [|by right].
    intros [Hin|?]; [|done]. by apply not_elem_of_empty in Hin. }
  induction csv_rows as [|r rows IH]; intros ids Hrows s; cbn [foldl].
  - split; [by left|]. intros [?|(_ & r & Hr & _)]; [done|]. by apply elem_of_nil in Hr.
  - apply Forall_cons in Hrows as [Hr Hrows]. rewrite (IH _ Hrows). cbv zeta.
    unfold dict_get.
    destruct (r !! "external_id") as [v|] eqn:Hv; cbn [default from_option id].
    + destruct (Hr v eq_refl) as [->|[s' ->]]; cbn [truthy].
      * split; intros [?|(? & r' & Hr' & Hs)]; auto.
        right. split; [done|]. exists r'. split; [by right|done].
        apply elem_of_cons in Hr' as [->|Hr']; [congruence|].
        right. split; [done|]. by exists r'.
      * destruct (String.eqb_spec s' "") as [->|Hne]; cbn [negb].
        -- split; intros [?|(? & r' & Hr' & Hs)]; auto.
           ++ right. split; [done|]. exists r'. split; [by right|done].
           ++ apply elem_of_cons in Hr' as [->|Hr']; [congruence|].
              right. split; [done|]. by exists r'.
        -- cbn [py_str]. rewrite elem_of_union, elem_of_singleton. split.
           ++ intros [[->|?]|(? & r' & Hr' & Hs)]; auto.
              ** right. split; [done|]. exists r. split; [left|done].
              ** right. split; [done|]. exists r'. split; [by right|done].
           ++ intros [?|(? & r' & Hr' & Hs)]; auto.
              apply elem_of_cons in Hr' as [->|Hr']; [left; left; congruence|].
              right. split; [done|]. by exists r'.
    + cbn [truthy]. split; intros [?|(? & r' & Hr' & Hs)]; auto.
      * right. split; [done|]. exists r'. split; [by right|done].
      * apply elem_of_cons in Hr' as [->|Hr']; [congruence|].
        right. split; [done|]. by exists r'.
Qed.

End sets.

(** The by-year sets at two rows of the raw tier. *)
Lemma ids_by_year_are_the_rows_of_the_year_witness :
  "7" ∈ ({["7"]} : gset string)
  ↔ ∃ r : row,
      r ∈ [ ({["external_id" := JInt 7;
               "data" := JDict {["showdate" := JStr "2016-07-01"]}]} : row);
            {["external_id" := JInt 9;
              "data" := JDict {["showdate" := JStr "2015-01-01"]}]} ]
      ∧ bronze_year r = Return (Some 2016)
      ∧ identifier (λ _, "") "external_id" r = Some "7".
Proof.
  apply (proj1 (ids_by_year_are_the_rows_of_the_year (λ _, "")
    [ {["external_id" := JInt 7; "data" := JDict {["showdate" := JStr "2016-07-01"]}]};
      {["external_id" := JInt 9; "data" := JDict {["showdate" := JStr "2015-01-01"]}]} ]
    2016 {["7"]})).
  vm_compute. reflexivity.
Defined.

Lemma numeric_showdate_raises_witness :
  silver_year (λ _, "") {["showdate" := JInt 20160701]} = Raise TypeError.
Proof.
  refine (proj1 (proj1 (numeric_showdate_raises (λ _, "") [] []
                          {["showdate" := JInt 20160701]} 20160701 2016 _) _));
    [discriminate|reflexivity].
Defined.

Lemma load_csv_ids_drops_empty_witness :
  "" ∈ load_csv_ids (λ _, "") [ {["external_id" := JStr ""]}; {["external_id" := JStr "5"]} ]
  ↔ "" ≠ "" ∧ ∃ r : row, r ∈ [ ({["external_id" := JStr ""]} : row);
                               {["external_id" := JStr "5"]} ]
                         ∧ r !! "external_id" = Some (JStr "").
Proof.
  apply (load_csv_ids_drops_empty (λ _, "")
           [ {["external_id" := JStr ""]}; {["external_id" := JStr "5"]} ]).
  constructor; [|constructor; [|constructor]];
    intros v; vm_compute; intros [= <-]; right; by eexists.
Defined.

(** *** The report *)

(** X16. A report that is produced has exactly one entry per year asked for,
    under [str(year)] (a year listed twice gives one entry), and none
    other. *)
Theorem report_has_the_years (source raw derived : Z → outcome (gset string))
    (years : list Z) (report : gmap string report_entry) :
  reconcile_years source raw derived years = Return report →
  dom report = list_to_set (pretty <$> years).
Proof.
  revert report. induction years as [|y years IH] using rev_ind; intros report.
  - intros [= <-]. by rewrite dom_empty_L.
  - rewrite reconcile_years_snoc.
    destruct (reconcile_years source raw derived years) as [report'|]; [|done]. cbn.
    destruct (source y) as [J|]; [|done]. cbn.
    destruct (raw y) as [B|]; [|done]. cbn.
    destruct (derived y) as [D|]; [|done]. cbn.
    intros [= <-]. rewrite dom_insert_L, (IH report' eq_refl), fmap_app, list_to_set_app_L.
    cbn. rewrite (right_id_L ∅ (∪)). apply (comm_L (∪)).
Qed.

Lemma report_has_the_years_witness :
  dom ({["2016" := entry ∅ ∅ ∅]} : gmap string report_entry)
  = list_to_set (pretty <$> [2016; 2016]).
Proof.
  apply (report_has_the_years (λ _, Return ∅) (λ _, Return ∅) (λ _, Return ∅)
           [2016; 2016]).
  vm_compute. reflexivity.
Defined.

(** X17. No partial report: if reading one of the three tiers raises for a
    year asked for, the reconciliation raises and returns no report. *)
Theorem failed_tier_fails_the_report (source raw derived : Z → outcome (gset string))
    (years : list Z) (year : Z) :
  year ∈ years →
  (∃ e, source year = Raise e) ∨ (∃ e, raw year = Raise e)
  ∨ (∃ e, derived year = Raise e) →
  ∃ e, reconcile_years source raw derived years = Raise e.
Proof.
  intros Hin Hfail.
  destruct (reconcile_years source raw derived years) as [report|e] eqn:Hrun;
    [|by eexists].
  destruct (reconcile_years_lookup _ _ _ _ _ Hrun year Hin)
    as (J & B & D & HJ & HB & HD & _).
  destruct Hfail as [[e He]|[[e He]|[e He]]]; congruence.
Qed.

Lemma failed_tier_fails_the_report_witness :
  ∃ e, reconcile_years (λ _, Return ∅)
         (λ year, if year =? 2017 then Raise (HTTPError 500) else Return ∅)
         (λ _, Return ∅) [2016; 2017; 2018] = Raise e.
Proof.
  apply (failed_tier_fails_the_report _ _ _ [2016; 2017; 2018] 2017).
  - apply list_elem_of_further, list_elem_of_here.
  - right. left. by eexists.
Defined.

Lemma sample_all (ids : gset string) :
  (size ids ≤ 50)%nat → sample ids = py_sorted (elements ids).
Proof.
  intros Hsize. unfold sample. apply take_ge.
  unfold py_sorted. rewrite merge_sort_Permutation. exact Hsize.
Qed.

(** X18. A sample is a faithful summary: it is empty exactly when the
    difference is empty, and when the difference has at most 50 elements it
    lists all of them.  So [json_minus_bronze] is empty exactly when every
    source identifier is in the raw tier. *)
Theorem samples_tell_emptiness (json_ids bronze_ids silver_ids : gset string) :
  (∀ ids : gset string, sample ids = [] ↔ ids = ∅)
  ∧ (∀ ids : gset string, (size ids ≤ 50)%nat → ∀ s, s ∈ sample ids ↔ s ∈ ids)
  ∧ (json_minus_bronze (entry json_ids bronze_ids silver_ids) = []
     ↔ json_ids ⊆ bronze_ids)
  ∧ (bronze_minus_silver (entry json_ids bronze_ids silver_ids) = []
     ↔ bronze_ids ⊆ silver_ids).
Proof.
  assert (Hempty : ∀ ids : gset string, sample ids = [] ↔ ids = ∅).
  { intros ids. destruct (sample_first_sorted ids) as (_ & _ & Hlen & _).
    split.
    - intros Hs. rewrite Hs in Hlen. cbn [length] in Hlen.
      apply leibniz_equiv, size_empty_iff. lia.
    - intros ->. reflexivity. }
  assert (Hdiff : ∀ X Y : gset string, X ∖ Y = ∅ ↔ X ⊆ Y).
  { intros X Y. split.
    - intros H x Hx. destruct (decide (x ∈ Y)) as [|Hn]; [done|]. exfalso.
      apply (not_elem_of_empty (C := gset string) x). rewrite <- H.
      by apply elem_of_difference.
    - intros H. apply leibniz_equiv. intros x.
      rewrite elem_of_difference, elem_of_empty. split; [|done].
      intros [Hx Hn]. apply Hn, H, Hx. }
  split_and!; [done| | |].
  - intros ids Hsize s. destruct (sample_first_sorted ids) as (_ & _ & Hlen & Hin & _).
    split; [apply Hin|]. intros Hs.
    rewrite sample_all by done. unfold py_sorted. rewrite merge_sort_Permutation.
    by apply elem_of_elements.
  - cbn. by rewrite Hempty.
  - cbn. by rewrite Hempty.
Qed.

End ReconcileFacts.

(** ** [load_env_file] and [preload_env_from_common_paths] *)

Module Env.
Import Py.

(** [os.environ], as a map from names to values. *)
Abbreviation environ := (gmap string string).

Definition chars (s : string) : list ascii := String.list_ascii_of_string s.
Definition text (l : list ascii) : string := String.string_of_list_ascii l.

Fixpoint drop_leading (p : ascii → bool) (l : list ascii) : list ascii :=
  match l with
  | c :: l' => if p c then drop_leading p l' else l
  | [] => []
  end.

(** [s.strip(ch)] for a single character [ch]. *)
Definition strip_char (ch : Z) (l : list ascii) : list ascii :=
  reverse (drop_leading (λ c, code c =? ch) (reverse (drop_leading (λ c, code c =? ch) l))).

(** [line.split("=", 1)] when [line] holds an [=]: what precedes the first
    one and what follows it; [None] when it holds none. *)
Fixpoint split_eq (l : list ascii) : option (list ascii * list ascii) :=
  match l with
  | [] => None
  | c :: l' =>
      if code c =? 61 then Some ([], l')
      else (λ kv : list ascii * list ascii, (c :: kv.1, kv.2)) <$> split_eq l'
  end.

(** What a line of the file assigns, if anything: the line is stripped;
    an empty line, a line starting with [#] and a line without [=] assign
    nothing; otherwise the name is what precedes the first [=], stripped,
    and the value what follows it, stripped of white space, then of double
    quotes, then of single quotes. *)
Definition parse_line (raw_line : string) : option (string * string) :=
  match strip (chars raw_line) with
  | [] => None
  | c :: line =>
      if code c =? 35 then None
      else match split_eq (c :: line) with
           | None => None
           | Some (key, val) =>
               Some (text (strip key), text (strip_char 39 (strip_char 34 (strip val))))
           end
  end.

Definition has_nul (s : string) : bool :=
  existsb (λ c, code c =? 0) (chars s).

(** [os.environ[key] = val] (POSIX): a null character in the name or the
    value is a [ValueError]. *)
Definition setenv (key val : string) (env : environ) : outcome environ :=
  if has_nul key || has_nul val then Raise ValueError
  else Return (<[key := val]> env).

(** The body of the loop of [load_env_file] for one line. *)
Definition load_line (env : environ) (raw_line : string) : outcome environ :=
  match parse_line raw_line with
  | None => Return env
  | Some (key, val) =>
      if negb (String.eqb key "") && bool_decide (env !! key = None)
      then setenv key val env
      else Return env
  end.

Definition load_lines (lines : list string) (env : environ) : outcome environ :=
  foldl (λ acc raw_line, env' ← acc; load_line env' raw_line) (Return env) lines.

(** [load_env_file(path)]: [None] is a path that does not exist or is no
    file, [Some lines] the lines of a file that was read and decoded
    ([read_text().splitlines()]). *)
Definition load_env_file (file : option (list string)) (env : environ)
    : outcome environ :=
  match file with
  | None => Return env
  | Some lines => load_lines lines env
  end.

(** [preload_env_from_common_paths]: the candidate files, in order. *)
Definition preload_env_from_common_paths (candidates : list (option (list string)))
    (env : environ) : outcome environ :=
  foldl (λ acc file, env' ← acc; load_env_file file env') (Return env) candidates.

Example parse_line_quoted :
  parse_line "  SUPABASE_URL = 'https://x.supabase.co'  "
  = Some ("SUPABASE_URL", "https://x.supabase.co").
Proof. reflexivity. Qed.
Example parse_line_comment : parse_line "  # SUPABASE_URL=x" = None.
Proof. reflexivity. Qed.
Example parse_line_second_equals : parse_line "A=b=c" = Some ("A", "b=c").
Proof. reflexivity. Qed.

Lemma load_lines_cons (raw_line : string) (lines : list string) (env : environ) :
  load_lines (raw_line :: lines) env
  = (env' ← load_line env raw_line; load_lines lines env').
Proof.
  unfold load_lines. cbn [foldl]. cbn [mbind outcome_bind].
  destruct (load_line env raw_line) as [env'|e]; [done|].
  cbn. induction lines as [|l lines IH]; [done|]. apply IH.
Qed.

Lemma load_line_grows (env env' : environ) (raw_line : string) :
  load_line env raw_line = Return env' → env ⊆ env'.
Proof.
  unfold load_line. destruct (parse_line raw_line) as [[key val]|]; [|by intros [= <-]].
  destruct (negb (String.eqb key "") && bool_decide (env !! key = None)) eqn:Hc;
    [|by intros [= <-]].
  apply andb_true_iff in Hc as [_ Hfree%bool_decide_eq_true].
  unfold setenv. destruct (has_nul key || has_nul val); [done|].
  intros [= <-]. by apply insert_subseteq.
Qed.

Lemma load_lines_grows (lines : list string) (env env' : environ) :
  load_lines lines env = Return env' → env ⊆ env'.
Proof.
  revert env. induction lines as [|l lines IH]; intros env.
  - by intros [= <-].
  - rewrite load_lines_cons. destruct (load_line env l) as [env1|] eqn:Hl; [|done].
    cbn. intros Hrest. etrans; [by eapply load_line_grows|by apply IH].
Qed.

Lemma load_env_file_grows (file : option (list string)) (env env' : environ) :
  load_env_file file env = Return env' → env ⊆ env'.
Proof. destruct file; [apply load_lines_grows|by intros [= <-]]. Qed.

(** X19. Loading never overrides: whatever files are read, every variable
    that was set before keeps its value, so the process environment wins
    over the files and an earlier candidate file wins over a later one. *)
Theorem preload_keeps_what_is_set (candidates : list (option (list string)))
    (env env' : environ) :
  preload_env_from_common_paths candidates env = Return env' →
  ∀ key val, env !! key = Some val → env' !! key = Some val.
Proof.
  intros Hrun key val Hkey. eapply lookup_weaken; [exact Hkey|]. clear Hkey.
  revert env Hrun.
  unfold preload_env_from_common_paths.
  induction candidates as [|file files IH]; intros env; [by intros [= <-]|].
  cbn [foldl mbind outcome_bind].
  destruct (load_env_file file env) as [env1|e] eqn:Hfile.
  - intros Hrest. etrans; [by eapply load_env_file_grows|by apply IH].
  - intros Hrest. exfalso. revert Hrest. clear.
    induction files as [|f files IH]; [done|]. apply IH.
Qed.

Lemma preload_keeps_what_is_set_witness :
  ({["A" := "1"; "B" := "2"]} : environ) !! "A" = Some "1".
Proof.
  apply (preload_keeps_what_is_set [Some ["A=9"; "B=2"]; None]
           {["A" := "1"]} {["A" := "1"; "B" := "2"]}); reflexivity.
Defined.

Lemma load_line_sets (env env' : environ) (raw_line key val : string) :
  load_line env raw_line = Return env' →
  parse_line raw_line = Some (key, val) →
  key = "" ∨ is_Some (env' !! key).
Proof.
  unfold load_line. intros Hrun Hparse. rewrite Hparse in Hrun.
  destruct (String.eqb_spec key "") as [|Hne]; [by left|]. right.
  cbn [negb andb] in Hrun. case_bool_decide as Hfree.
  - unfold setenv in Hrun. destruct (has_nul key || has_nul val); [done|].
    injection Hrun as <-. rewrite lookup_insert_eq. by eexists.
  - injection Hrun as <-. by apply not_eq_None_Some.
Qed.

Lemma load_line_settled (env : environ) (raw_line : string) :
  (∀ key val, parse_line raw_line = Some (key, val) → key = "" ∨ is_Some (env !! key)) →
  load_line env raw_line = Return env.
Proof.
  intros Hset. unfold load_line.
  destruct (parse_line raw_line) as [[key val]|]; [|done].
  destruct (Hset key val eq_refl) as [->|[v Hv]]; [done|].
  rewrite (bool_decide_eq_false_2 (env !! key = None)) by congruence.
  by rewrite andb_false_r.
Qed.

Lemma load_lines_sets (lines : list string) (env env' : environ) :
  load_lines lines env = Return env' →
  ∀ raw_line key val, raw_line ∈ lines → parse_line raw_line = Some (key, val) →
    key = "" ∨ is_Some (env' !! key).
Proof.
  revert env. induction lines as [|l lines IH]; intros env Hrun raw_line key val Hin Hparse.
  - by apply elem_of_nil in Hin.
  - rewrite load_lines_cons in Hrun.
    destruct (load_line env l) as [env1|] eqn:Hl; [|done]. cbn in Hrun.
    apply elem_of_cons in Hin as [->|Hin]; [|by eapply IH].
    destruct (load_line_sets _ _ _ _ _ Hl Hparse) as [?|[v Hv]]; [by left|].
    right. exists v. eapply lookup_weaken; [exact Hv|by eapply load_lines_grows].
Qed.

Lemma load_lines_settled (lines : list string) (env : environ) :
  (∀ raw_line key val, raw_line ∈ lines → parse_line raw_line = Some (key, val) →
     key = "" ∨ is_Some (env !! key)) →
  load_lines lines env = Return env.
Proof.
  induction lines as [|l lines IH]; intros Hset; [done|].
  rewrite load_lines_cons, load_line_settled.
  - cbn. apply IH. intros raw_line key val Hin. apply Hset. by right.
  - intros key val. apply Hset. left.
Qed.

(** X20. Loading a file is idempotent: once a file has been loaded, loading
    it again changes nothing and cannot fail. *)
Theorem load_env_file_twice (file : option (list string)) (env env' : environ) :
  load_env_file file env = Return env' →
  load_env_file file env' = Return env'.
Proof.
  destruct file as [lines|]; [|done]. cbn. intros Hrun.
  apply load_lines_settled. intros raw_line key val. by apply (load_lines_sets _ _ _ Hrun).
Qed.

Lemma load_env_file_twice_witness :
  load_env_file (Some ["# keys"; "A = 'x'"; "A=y"; "novalue"])
                {["A" := "x"]}
  = Return {["A" := "x"]}.
Proof.
  apply (load_env_file_twice (Some ["# keys"; "A = 'x'"; "A=y"; "novalue"]) ∅).
  reflexivity.
Defined.

(** X21. Lines that assign nothing leave no trace: a blank line, a comment
    line (first character [#] after stripping) or a line without [=] can be
    removed from the file without changing what loading it does. *)
Theorem unassigning_lines_are_ignored (lines1 lines2 : list string) (raw_line : string)
    (env : environ) :
  parse_line raw_line = None →
  load_env_file (Some (lines1 ++ raw_line :: lines2)) env
  = load_env_file (Some (lines1 ++ lines2)) env.
Proof.
  intros Hnone. cbn. unfold load_lines. rewrite !foldl_app. cbn [foldl]. f_equal.
  destruct (foldl _ _ lines1) as [env1|]; [|done]. cbn.
  unfold load_line. by rewrite Hnone.
Qed.

Lemma unassigning_lines_are_ignored_witness :
  load_env_file (Some (["A=1"] ++ "   # B=2" :: ["C=3"])) ∅
  = load_env_file (Some (["A=1"] ++ ["C=3"])) ∅.
Proof. apply (unassigning_lines_are_ignored ["A=1"] ["C=3"] "   # B=2" ∅). reflexivity. Defined.

(** *** Plain assignments *)

Lemma chars_append (a b : string) : chars (a +:+ b) = chars a ++ chars b.
Proof.
  unfold chars. induction a as [|c a IH]; [done|].
  change (String c a +:+ b) with (String c (a +:+ b)).
  cbn [String.list_ascii_of_string app]. by rewrite IH.
Qed.

Lemma drop_leading_none (p : ascii → bool) (l : list ascii) :
  Forall (λ c, p c = false) l → drop_leading p l = l.
Proof. destruct 1 as [|c l Hc _]; [done|]. cbn. by rewrite Hc. Qed.

Lemma strip_char_none (ch : Z) (l : list ascii) :
  Forall (λ c, code c ≠ ch) l → strip_char ch l = l.
Proof.
  intros Hl. assert (Forall (λ c, (code c =? ch) = false) l) as Hl'.
  { eapply Forall_impl; [exact Hl|]. intros c Hc. by apply Z.eqb_neq. }
  unfold strip_char. rewrite (drop_leading_none _ l Hl').
  rewrite drop_leading_none by by apply Forall_reverse.
  apply reverse_involutive.
Qed.

Lemma split_eq_append (name value : list ascii) :
  Forall (λ c, code c ≠ 61) name →
  split_eq (name ++ Stdlib.Strings.Ascii.ascii_of_N 61 :: value) = Some (name, value).
Proof.
  induction 1 as [|c name Hc _ IH]; [done|].
  cbn [app split_eq]. apply Z.eqb_neq in Hc. rewrite Hc, IH. done.
Qed.

(** X22. A line [NAME=value] is read as it stands: when the name is not
    empty, holds no white space and no [=] and does not start with [#], and
    the value holds no white space and no quote, the line assigns exactly
    that value to that name. *)
Theorem plain_assignment_is_read (name value : string) :
  name ≠ "" →
  Forall (λ c, is_space c = false ∧ code c ≠ 61) (chars name) →
  (∀ c l, chars name = c :: l → code c ≠ 35) →
  Forall (λ c, is_space c = false ∧ code c ≠ 34 ∧ code c ≠ 39) (chars value) →
  parse_line (name +:+ "=" +:+ value) = Some (name, value).
Proof.
  intros Hne Hname Hhash Hvalue. unfold parse_line.
  fold (chars (name +:+ "=" +:+ value)). rewrite !chars_append.
  change (chars "=") with [Stdlib.Strings.Ascii.ascii_of_N 61]. cbn [app].
  assert (Hn : Forall (λ c, is_space c = false) (chars name))
    by (eapply Forall_impl; [exact Hname|]; by intros c [? _]).
  assert (Hv : Forall (λ c, is_space c = false) (chars value))
    by (eapply Forall_impl; [exact Hvalue|]; by intros c [? _]).
  rewrite FetchFacts.strip_plain
    by (apply Forall_app; split; [done|]; by constructor).
  destruct (chars name) as [|c l] eqn:Hchars.
  { destruct name; [done|discriminate Hchars]. }
  cbn [app]. specialize (Hhash c l eq_refl). apply Z.eqb_neq in Hhash. rewrite Hhash.
  change (c :: l ++ ?x) with ((c :: l) ++ x).
  rewrite split_eq_append
    by (eapply Forall_impl; [exact Hname|]; by intros c' [_ ?]).
  rewrite !FetchFacts.strip_plain by done.
  rewrite (strip_char_none 34)
    by (eapply Forall_impl; [exact Hvalue|]; by intros c' (_ & ? & _)).
  rewrite (strip_char_none 39)
    by (eapply Forall_impl; [exact Hvalue|]; by intros c' (_ & _ & ?)).
  rewrite <- Hchars. unfold text, chars.
  by rewrite !String.string_of_list_ascii_of_string.
Qed.

Lemma plain_assignment_is_read_witness :
  parse_line ("SUPABASE_URL" +:+ "=" +:+ "https://x.supabase.co")
  = Some ("SUPABASE_URL", "https://x.supabase.co").
Proof.
  apply (plain_assignment_is_read "SUPABASE_URL" "https://x.supabase.co").
  - discriminate.
  - repeat (constructor; [by vm_compute|]). constructor.
  - intros c l [= <- _]. by vm_compute.
  - repeat (constructor; [by vm_compute|]). constructor.
Defined.

End Env.
